(** * NGINX Gateway Fabric: route precedence and policy generators

    A shallow embedding of the resolution and generation core:
    - [State]: [sortRoutes], [higherPriority] and [lessObjectMeta]
      (package state);
    - [PoliciesKV]: the generator interface whose results carry a
      key-value map, and its composite (package policies);
    - [Policies]: the generator interface over servers, path rules and
      match rules, the location filters and its composite (package
      policies);
    - [ClientSettings]: the client settings generator whose [getMaxSize]
      parses sizes to bytes (package clientsettings);
    - [ClientSettingsUnits]: the client settings generator whose
      [getMaxSize] compares unit letters, with its server, path-rule,
      match-rule and location entry points (package clientsettings).

    Go values are modelled as follows: [string] is a byte string, [int64] is
    [Z] with the 64-bit wrap-around written out, a length is a [nat], a
    slice is a [slice] that is either nil or carries its elements, a map is
    an optional [gmap] ([None] is the nil map), and a call that may panic
    returns a [Res]. *)

From stdpp Require Import gmap strings list sorting.
From Stdlib Require Import ZArith String Ascii List Lia Bool Permutation.
Import ListNotations.

Local Open Scope string_scope.
Local Open Scope Z_scope.

(** ** Panics and errors *)

(** A Go [error] value as the code builds it. *)
Inductive error : Type :=
| ErrNoSubmatches (s : string)   (* "invalid size format, could not find submatches: %s" *)
| ErrParseInt (s : string)       (* "invalid size format, could not parse int: %s" *)
| ErrSyntax (fn input : string)  (* strconv.NumError with strconv.ErrSyntax *)
| ErrRange (fn input : string).  (* strconv.NumError with strconv.ErrRange *)

(** What a goroutine panics with: an [error] passed to [panic], or a
    run-time error raised by the language itself. *)
Inductive panic_value : Type :=
| PanicError (e : error)
| PanicSliceBounds (index : Z)   (* slice bounds out of range *)
| PanicNilMap.                   (* assignment to entry in nil map *)

Inductive Res (A : Type) : Type :=
| Ok (a : A)
| Panic (p : panic_value).
Arguments Ok {A} a.
Arguments Panic {A} p.

(** Sequencing: a panic skips the rest of the function. *)
#[global] Instance Res_bind : MBind Res := fun A B k m =>
  match m with
  | Ok a => k a
  | Panic p => Panic p
  end.

#[global] Instance Res_ret : MRet Res := fun A a => Ok a.

(** [panic(err)] when [err != nil]. *)
Definition must {A : Type} (r : A + error) : Res A :=
  match r with
  | inl a => Ok a
  | inr e => Panic (PanicError e)
  end.

(** ** Slices *)

(** A Go slice value: [nil_slice] is the nil slice, [mk_slice l] a non-nil
    slice holding [l] (possibly no element). *)
Inductive slice (A : Type) : Type :=
| nil_slice
| mk_slice (l : list A).
Arguments nil_slice {A}.
Arguments mk_slice {A} l.

Definition elems {A : Type} (s : slice A) : list A :=
  match s with
  | nil_slice => []
  | mk_slice l => l
  end.

Definition len {A : Type} (s : slice A) : nat := List.length (elems s).

(** [make([]A, 0, n)] *)
Definition make_slice {A : Type} : slice A := mk_slice [].

(** [append(s, xs...)]: appending nothing gives [s] back, so a nil slice
    stays nil. *)
Definition append {A : Type} (s : slice A) (xs : list A) : slice A :=
  match xs with
  | [] => s
  | _ :: _ => mk_slice (elems s ++ xs)
  end.

(** ** Strings and numbers *)

Definition int64_min : Z := - 2 ^ 63.
Definition int64_max : Z := 2 ^ 63 - 1.

(** Two's complement wrap-around of [int64] arithmetic. *)
Definition wrap64 (z : Z) : Z := (z + 2 ^ 63) mod 2 ^ 64 - 2 ^ 63.

Definition is_digit (c : ascii) : bool :=
  (48 <=? Z.of_nat (nat_of_ascii c)) && (Z.of_nat (nat_of_ascii c) <=? 57).

Definition digit_val (c : ascii) : Z := Z.of_nat (nat_of_ascii c) - 48.

Fixpoint all_digits (s : string) : bool :=
  match s with
  | EmptyString => true
  | String c s' => is_digit c && all_digits s'
  end.

(** The value of a digit string read from the left with accumulator [acc]. *)
Fixpoint digits_value (acc : Z) (s : string) : Z :=
  match s with
  | EmptyString => acc
  | String c s' => digits_value (acc * 10 + digit_val c) s'
  end.

(** [strconv.ParseInt(s, 10, 64)]: an optional sign, then decimal digits;
    a value outside [int64] is a range error. *)
Definition ParseInt (fn : string) (s : string) : Z + error :=
  let '(neg, body) :=
    match s with
    | String "+" r => (false, r)
    | String "-" r => (true, r)
    | _ => (false, s)
    end in
  match body with
  | EmptyString => inr (ErrSyntax fn s)
  | _ =>
      if all_digits body then
        let v := if neg : bool then - digits_value 0 body else digits_value 0 body in
        if (int64_min <=? v) && (v <=? int64_max) then inl v
        else inr (ErrRange fn s)
      else inr (ErrSyntax fn s)
  end.

(** [strconv.Atoi(s)] on a 64-bit platform. *)
Definition Atoi (s : string) : Z + error := ParseInt "Atoi" s.

Definition lower_ascii (c : ascii) : ascii :=
  let n := nat_of_ascii c in
  if (65 <=? n)%nat && (n <=? 90)%nat then ascii_of_nat (n + 32) else c.

(** [strings.ToLower] on ASCII text. *)
Fixpoint ToLower (s : string) : string :=
  match s with
  | EmptyString => EmptyString
  | String c s' => String (lower_ascii c) (ToLower s')
  end.

(** The longest prefix of decimal digits and what follows it. *)
Fixpoint span_digits (s : string) : string * string :=
  match s with
  | String c s' =>
      if is_digit c then
        let '(ds, rest) := span_digits s' in (String c ds, rest)
      else (EmptyString, s)
  | EmptyString => (EmptyString, EmptyString)
  end.

Definition is_unit (u : string) : bool :=
  (u =? "k")%string || (u =? "m")%string || (u =? "g")%string.

(** [literal s ds u]: [s] is the one to four digits [ds] followed by the
    optional unit letter [u], one of k, m and g. *)
Definition literal (s ds u : string) : Prop :=
  s = ds ++ u /\
  all_digits ds = true /\
  (1 <= String.length ds <= 4)%nat /\
  (u = "" \/ u = "k" \/ u = "m" \/ u = "g").

(** The size grammar, one to four digits and an optional unit letter among
    k, m and g, as a predicate. *)
Definition size_grammar (s : string) : Prop :=
  exists ds u : string, literal s ds u.

(** The byte count of a literal of the grammar: its number times 1 for no
    unit, 1024 for k, 1024^2 for m and 1024^3 for g. *)
Definition unit_bytes (u : string) : Z :=
  if (u =? "k")%string then 1024
  else if (u =? "m")%string then 1024 * 1024
  else if (u =? "g")%string then 1024 * 1024 * 1024
  else 1.

Definition size_bytes (ds u : string) : Z := digits_value 0 ds * unit_bytes u.

(** ** The policy API (package v1alpha1) and the HTTP model (package http)

    Modelled from the spec: the declarations of the policy API types and of
    [http.Location] and [http.Server] are not among the sources; the records
    below carry the fields the generators read. A policy is "a typed
    configuration object attached to one or more scopes", and only its
    kind-specific generator interprets it. *)

Module API.

Definition Size : Type := string.
Definition Duration : Type := string.

Record ClientBody : Type := {
  MaxSize : option Size;        (* *Size *)
  Timeout : option Duration     (* *Duration *)
}.

Record ClientKeepAliveTimeout : Type := {
  Server : option Duration;
  Header : option Duration
}.

Record ClientKeepAlive : Type := {
  Requests : option Z;          (* *int32 *)
  KeepAliveTime : option Duration;
  KeepAliveTimeout : option ClientKeepAliveTimeout
}.

Record ClientSettingsPolicySpec : Type := {
  Body : option ClientBody;     (* *ClientBody *)
  KeepAlive : option ClientKeepAlive
}.

Record ClientSettingsPolicy : Type := {
  Kind : string;
  Namespace : string;
  Name : string;
  Spec : ClientSettingsPolicySpec
}.

(** The [Policy] interface: a client settings policy, or a policy of another
    kind, which the type assertion to a client settings policy rejects. *)
Inductive Policy : Type :=
| IsClientSettingsPolicy (csp : ClientSettingsPolicy)
| OtherPolicy (kind namespace name : string).

Definition asClientSettingsPolicy (pol : Policy) : option ClientSettingsPolicy :=
  match pol with
  | IsClientSettingsPolicy csp => Some csp
  | OtherPolicy _ _ _ => None
  end.

End API.

Module HTTP.

Definition LocationType : Type := string.

Record Location : Type := {
  Type_ : LocationType;
  HTTPMatchKey : string
}.

Record Server : Type := {
  ServerName : string
}.

End HTTP.

(** ** Package policies: results with a key-value map *)

Module PoliciesKV.

(** A value of type [interface{}]. *)
Inductive any : Type :=
| AnyString (s : string)
| AnyInt (z : Z)
| AnyBool (b : bool).

Record File : Type := {
  Name : string;
  Content : string              (* []byte *)
}.

(** [KeyVals] is [None] for the nil map. *)
Record GenerateResult : Type := {
  KeyVals : option (gmap string any);
  Files : slice File
}.

Record Generator : Type := {
  GenerateForLocation : list API.Policy -> HTTP.Location -> Res GenerateResult;
  GenerateForInternalLocation : list API.Policy -> HTTP.Location -> Res GenerateResult;
  GenerateForServer : list API.Policy -> HTTP.Server -> Res GenerateResult
}.

Record CompositeGenerator : Type := {
  generators : list Generator
}.

Definition NewCompositeGenerator (generators : list Generator) : CompositeGenerator :=
  {| generators := generators |}.

(** [dst[k] = v]: an assignment to an entry of the nil map panics. *)
Definition assign (dst : option (gmap string any)) (k : string) (v : any) :
    Res (option (gmap string any)) :=
  match dst with
  | None => Panic PanicNilMap
  | Some d => Ok (Some (<[k:=v]> d))
  end.

(** [maps.Copy(dst, src)]: [for k, v := range src { dst[k] = v }]. Ranging
    over the nil map runs no iteration. *)
Definition maps_Copy (dst src : option (gmap string any)) : Res (option (gmap string any)) :=
  match src with
  | None => Ok dst
  | Some s => map_fold (fun k v acc => d ← acc; assign d k v) (Ok dst) s
  end.

(** [var compositeResult GenerateResult] *)
Definition zeroResult : GenerateResult := {| KeyVals := None; Files := nil_slice |}.

(** The two statements that follow the member's call in each loop body:
    [compositeResult.Files = append(compositeResult.Files, result.Files...)]
    and [maps.Copy(compositeResult.KeyVals, result.KeyVals)]. *)
Definition mergeResult (compositeResult result : GenerateResult) : Res GenerateResult :=
  let files := append (Files compositeResult) (elems (Files result)) in
  keyVals ← maps_Copy (KeyVals compositeResult) (KeyVals result);
  Ok {| KeyVals := keyVals; Files := files |}.

Module Composite.

Definition GenerateForInternalLocation (g : CompositeGenerator)
    (policies : list API.Policy) (internalLocation : HTTP.Location) : Res GenerateResult :=
  foldl (fun acc generator =>
           compositeResult ← acc;
           result ← GenerateForInternalLocation generator policies internalLocation;
           mergeResult compositeResult result)
        (Ok zeroResult) (generators g).

Definition GenerateForServer (g : CompositeGenerator)
    (policies : list API.Policy) (server : HTTP.Server) : Res GenerateResult :=
  foldl (fun acc generator =>
           compositeResult ← acc;
           result ← GenerateForServer generator policies server;
           mergeResult compositeResult result)
        (Ok zeroResult) (generators g).

Definition GenerateForLocation (g : CompositeGenerator)
    (policies : list API.Policy) (location : HTTP.Location) : Res GenerateResult :=
  foldl (fun acc generator =>
           compositeResult ← acc;
           result ← GenerateForLocation generator policies location;
           mergeResult compositeResult result)
        (Ok zeroResult) (generators g).

End Composite.

End PoliciesKV.

(** ** Package dataplane

    Modelled from the spec: the scope types are declared outside the
    sources; a server carries its attached policies, a path rule its path
    type, path and match rules, and a match rule its attached policies. *)

Module Dataplane.

Definition PathType : Type := string.

Record MatchRule : Type := {
  Policies : list API.Policy
}.

Record PathRule : Type := {
  Path : string;
  PathType_ : PathType;
  MatchRules : list MatchRule
}.

Record VirtualServer : Type := {
  ServerPolicies : list API.Policy
}.

End Dataplane.

(** ** Package policies: results per server and per location *)

Module Policies.

Record ServerFile : Type := {
  ServerFileName : string;
  ServerFileContent : string
}.

Definition GenerateForServerResult : Type := slice ServerFile.

(** [type LocationType int] with its three constants. *)
Definition LocationType : Type := Z.
Definition Internal : LocationType := 0.
Definition External : LocationType := 1.
Definition ExternalRedirect : LocationType := 2.

Record LocationFile : Type := {
  Name : string;
  Type_ : LocationType;
  Content : string
}.

Definition GenerateForLocationResult : Type := slice LocationFile.

Definition ForInternalLocation (locFile : GenerateForLocationResult) : slice LocationFile :=
  foldl (fun files f => if Type_ f =? Internal then append files [f] else files)
        make_slice (elems locFile).

Definition ForExternalLocation (locFile : GenerateForLocationResult) : slice LocationFile :=
  foldl (fun files f => if Type_ f =? External then append files [f] else files)
        make_slice (elems locFile).

Definition ForExternalRedirectLocation (locFile : GenerateForLocationResult) : slice LocationFile :=
  foldl (fun files f => if Type_ f =? ExternalRedirect then append files [f] else files)
        make_slice (elems locFile).

Record Generator : Type := {
  GenerateForServer : Dataplane.VirtualServer -> Res GenerateForServerResult;
  GenerateForPathRule : Dataplane.PathRule -> Res GenerateForLocationResult;
  GenerateForMatchRule : Dataplane.MatchRule -> Res GenerateForLocationResult
}.

Record CompositeGenerator : Type := {
  generators : list Generator
}.

Definition NewCompositeGenerator (generators : list Generator) : CompositeGenerator :=
  {| generators := generators |}.

Module Composite.

Definition GenerateForServer (g : CompositeGenerator)
    (server : Dataplane.VirtualServer) : Res GenerateForServerResult :=
  foldl (fun acc generator =>
           results ← acc;
           r ← GenerateForServer generator server;
           Ok (append results (elems r)))
        (Ok nil_slice) (generators g).

Definition GenerateForPathRule (g : CompositeGenerator)
    (rule : Dataplane.PathRule) : Res GenerateForLocationResult :=
  foldl (fun acc generator =>
           results ← acc;
           r ← GenerateForPathRule generator rule;
           Ok (append results (elems r)))
        (Ok nil_slice) (generators g).

Definition GenerateForMatchRule (g : CompositeGenerator)
    (rule : Dataplane.MatchRule) : Res GenerateForLocationResult :=
  foldl (fun acc generator =>
           results ← acc;
           r ← GenerateForMatchRule generator rule;
           Ok (append results (elems r)))
        (Ok nil_slice) (generators g).

End Composite.

End Policies.

(** ** Package clientsettings: sizes parsed to bytes *)

Module ClientSettings.

Import API.

(** [regexp.MustCompile(`^(\d{1,4})(k|m|g)?$`).FindStringSubmatch(s)]:
    no element when [s] does not match, otherwise the match and its two
    groups (an absent unit group is the empty string). *)
Definition FindStringSubmatch (s : string) : list string :=
  let '(ds, rest) := span_digits s in
  if (1 <=? String.length ds)%nat && (String.length ds <=? 4)%nat
     && ((rest =? "")%string || is_unit rest)
  then [s; ds; rest]
  else [].

(** [sizeMultipliers] defines the conversion rates for each unit to bytes. *)
Definition sizeMultipliers : gmap string Z :=
  list_to_map
    [("b", 1); ("k", 1024); ("m", 1024 * 1024); ("g", 1024 * 1024 * 1024)].

(** Indexing a Go map gives the zero value for a missing key. *)
Definition multiplier (unit : string) : Z :=
  default 0 (sizeMultipliers !! unit).

(** [parseSizeToBytes] parses the size string and returns the size in
    bytes; the left injection is the [(value, nil)] return, the right one
    the [(0, err)] return. *)
Definition parseSizeToBytes (s : Size) : Z + error :=
  match FindStringSubmatch s with
  | _ :: m1 :: m2 :: _ =>
      match ParseInt "ParseInt" m1 with
      | inr _ => inr (ErrParseInt s)
      | inl value =>
          let unit := ToLower m2 in
          let unit := if (unit =? "")%string then "b" else unit in
          inl (wrap64 (value * multiplier unit))
      end
  | _ => inr (ErrNoSubmatches s)
  end.

Definition getMaxSize (s1 s2 : Size) : Res Size :=
  if (s1 =? "")%string then Ok s2
  else if (s2 =? "")%string then Ok s1
  else
    s1Bytes ← must (parseSizeToBytes s1);
    s2Bytes ← must (parseSizeToBytes s2);
    if s1Bytes >? s2Bytes then Ok s1 else Ok s2.

Section Generator.

(** [helpers.MustExecuteTemplate] on the two fixed templates, and the
    constant [http.ExternalLocationType]: declared outside the sources. *)
Variable tmpl : ClientSettingsPolicySpec -> string.
Variable tmplExternalRedirect : Size -> string.
Variable ExternalLocationType : HTTP.LocationType.

Definition GenerateForServer (pols : list Policy) (_ : HTTP.Server) : Res PoliciesKV.GenerateResult :=
  let files :=
    foldl (fun files pol =>
             match asClientSettingsPolicy pol with
             | None => files
             | Some csp =>
                 let content := tmpl (Spec csp) in
                 if (String.length content =? 0)%nat then files
                 else append files
                        [{| PoliciesKV.Name :=
                              "ClientSettingsPolicy_" ++ Namespace csp ++ "_" ++ Name csp ++ "_server.conf";
                            PoliciesKV.Content := content |}]
             end)
          make_slice pols in
  Ok {| PoliciesKV.KeyVals := None; PoliciesKV.Files := files |}.

(** The loop of [GenerateForLocation] that merges the maximum body sizes of
    the attached client settings policies. *)
Definition mergedMaxBodySize (pols : list Policy) : Res Size :=
  foldl (fun acc pol =>
           maxBodySize ← acc;
           match asClientSettingsPolicy pol with
           | None => Ok maxBodySize
           | Some csp =>
               match Body (Spec csp) with
               | Some body =>
                   match MaxSize body with
                   | Some size => getMaxSize maxBodySize size
                   | None => Ok maxBodySize
                   end
               | None => Ok maxBodySize
               end
           end)
        (Ok "") pols.

Definition GenerateForLocation (pols : list Policy) (location : HTTP.Location) : Res PoliciesKV.GenerateResult :=
  if (HTTP.Type_ location =? ExternalLocationType)%string then
    let files :=
      foldl (fun files pol =>
               match asClientSettingsPolicy pol with
               | None => files
               | Some csp =>
                   append files
                     [{| PoliciesKV.Name :=
                           "ClientSettingsPolicy_" ++ Namespace csp ++ "_" ++ Name csp ++ "_ext.conf";
                         PoliciesKV.Content := tmpl (Spec csp) |}]
               end)
            make_slice pols in
    Ok {| PoliciesKV.KeyVals := None; PoliciesKV.Files := files |}
  else
    maxBodySize ← mergedMaxBodySize pols;
    if (maxBodySize =? "")%string then Ok PoliciesKV.zeroResult
    else
      Ok {| PoliciesKV.KeyVals := None;
            PoliciesKV.Files :=
              mk_slice
                [{| PoliciesKV.Name :=
                      "ClientSettingsPolicy_" ++ HTTP.HTTPMatchKey location ++ "_redirect.conf";
                    PoliciesKV.Content := tmplExternalRedirect maxBodySize |}] |}.

Definition GenerateForInternalLocation (pols : list Policy) (_ : HTTP.Location) : Res PoliciesKV.GenerateResult :=
  let files :=
    foldl (fun files pol =>
             match asClientSettingsPolicy pol with
             | None => files
             | Some csp =>
                 append files
                   [{| PoliciesKV.Name :=
                         "ClientSettingsPolicy_" ++ Namespace csp ++ "_" ++ Name csp ++ "_int.conf";
                       PoliciesKV.Content := tmpl (Spec csp) |}]
             end)
          make_slice pols in
  Ok {| PoliciesKV.KeyVals := None; PoliciesKV.Files := files |}.

Definition NewGenerator : PoliciesKV.Generator :=
  {| PoliciesKV.GenerateForLocation := GenerateForLocation;
     PoliciesKV.GenerateForInternalLocation := GenerateForInternalLocation;
     PoliciesKV.GenerateForServer := GenerateForServer |}.

End Generator.

End ClientSettings.

(** ** Package clientsettings: sizes compared by their unit letters *)

Module ClientSettingsUnits.

Import API.

Definition isDigit (char : string) : bool :=
  match Atoi char with
  | inl _ => true
  | inr _ => false
  end.

(** [s[len(s)-1:]]: the last byte as a string; slicing from -1 panics. *)
Definition lastByte (s : string) : Res string :=
  match String.length s with
  | O => Panic (PanicSliceBounds (-1))
  | S n => Ok (substring n 1 s)
  end.

(** [s[:len(s)-1]], evaluated after [lastByte s] has returned. *)
Definition dropLast (s : string) : string :=
  substring 0 (String.length s - 1) s.

(** The grammar is one to four digits and an optional k, m or g. *)
Definition getMaxSize (s1 : Size) (s2 : option Size) : Res Size :=
  match s2 with
  | None => Ok s1
  | Some s2 =>
      if (s1 =? "")%string then Ok s2
      else
        s1Unit ← lastByte s1;
        s2Unit ← lastByte s2;
        (* if unit is missing then it's bytes;
           bytes will always be smaller than other units *)
        if isDigit s1Unit && negb (isDigit s2Unit) then Ok s2
        else if negb (isDigit s1Unit) && isDigit s2Unit then Ok s1
        else if (s1Unit =? s2Unit)%string then
          s1Int ← must (Atoi (dropLast s1));
          s2Int ← must (Atoi (dropLast s2));
          if s1Int >? s2Int then Ok s1 else Ok s2
        else if (s1Unit =? "k")%string then Ok s2
        else if (s1Unit =? "m")%string then
          if (s2Unit =? "g")%string then Ok s2 else Ok s1
        else if (s1Unit =? "g")%string then Ok s1
        else Ok s1
  end.

(** The body of the loops over the attached policies that merge the
    maximum body size: a policy of another kind is skipped, and a client
    settings policy with a body updates the maximum. *)
Definition mergeStep (acc : Res Size) (pol : Policy) : Res Size :=
  maxBodySize ← acc;
  match asClientSettingsPolicy pol with
  | None => Ok maxBodySize
  | Some csp =>
      match Body (Spec csp) with
      | Some body => getMaxSize maxBodySize (MaxSize body)
      | None => Ok maxBodySize
      end
  end.

(** [strings.ReplaceAll(path, "/", "")] *)
Fixpoint removeSlashFromPath (path : string) : string :=
  match path with
  | EmptyString => EmptyString
  | String c rest =>
      if (c =? "/")%char then removeSlashFromPath rest
      else String c (removeSlashFromPath rest)
  end.

Section Generator.

Variable tmpl : ClientSettingsPolicySpec -> string.
Variable tmplExternalRedirect : Size -> string.
Variable ExternalLocationType : HTTP.LocationType.

Definition GenerateForServer (server : Dataplane.VirtualServer) : Res Policies.GenerateForServerResult :=
  Ok (foldl (fun results pol =>
               match pol with
               | IsClientSettingsPolicy csp =>
                   append results
                     [{| Policies.ServerFileName :=
                           Kind csp ++ "_" ++ Namespace csp ++ "_" ++ Name csp ++ ".conf";
                         Policies.ServerFileContent := tmpl (Spec csp) |}]
               | OtherPolicy _ _ _ => results
               end)
            make_slice (Dataplane.ServerPolicies server)).

(** The two nested loops of [GenerateForPathRule]. *)
Definition maxBodySizeOf (rule : Dataplane.PathRule) : Res Size :=
  foldl (fun acc mtch => foldl mergeStep acc (Dataplane.Policies mtch))
        (Ok "") (Dataplane.MatchRules rule).

Definition GenerateForPathRule (rule : Dataplane.PathRule) : Res Policies.GenerateForLocationResult :=
  maxBodySize ← maxBodySizeOf rule;
  if (maxBodySize =? "")%string then Ok nil_slice
  else
    Ok (mk_slice
          [{| Policies.Name :=
                "ClientSettingsPolicy_" ++ Dataplane.PathType_ rule ++ "_"
                ++ removeSlashFromPath (Dataplane.Path rule) ++ "_redirect.conf";
              Policies.Type_ := Policies.ExternalRedirect;
              Policies.Content := tmplExternalRedirect maxBodySize |}]).

Definition GenerateForMatchRule (rule : Dataplane.MatchRule) : Res Policies.GenerateForLocationResult :=
  Ok (foldl (fun results pol =>
               match pol with
               | IsClientSettingsPolicy csp =>
                   let fileContents := tmpl (Spec csp) in
                   append results
                     [{| Policies.Name :=
                           Kind csp ++ "_" ++ Namespace csp ++ "_" ++ Name csp ++ "_int.conf";
                         Policies.Type_ := Policies.Internal;
                         Policies.Content := fileContents |};
                      {| Policies.Name :=
                           Kind csp ++ "_" ++ Namespace csp ++ "_" ++ Name csp ++ "_ext.conf";
                         Policies.Type_ := Policies.External;
                         Policies.Content := fileContents |}]
               | OtherPolicy _ _ _ => results
               end)
            make_slice (Dataplane.Policies rule)).

Definition NewGenerator : Policies.Generator :=
  {| Policies.GenerateForServer := GenerateForServer;
     Policies.GenerateForPathRule := GenerateForPathRule;
     Policies.GenerateForMatchRule := GenerateForMatchRule |}.

(** The location entry point of the generator over attached policy lists:
    the merge loop of its redirect branch and the function itself. *)
Definition maxBodySizeOfPolicies (pols : list Policy) : Res Size :=
  foldl mergeStep (Ok "") pols.

Definition GenerateForLocation (pols : list Policy) (location : HTTP.Location) : Res PoliciesKV.GenerateResult :=
  if (HTTP.Type_ location =? ExternalLocationType)%string then
    let files :=
      foldl (fun files pol =>
               match asClientSettingsPolicy pol with
               | None => files
               | Some csp =>
                   append files
                     [{| PoliciesKV.Name :=
                           "ClientSettingsPolicy_" ++ Namespace csp ++ "_" ++ Name csp ++ "_ext.conf";
                         PoliciesKV.Content := tmpl (Spec csp) |}]
               end)
            make_slice pols in
    Ok {| PoliciesKV.KeyVals := None; PoliciesKV.Files := files |}
  else
    maxBodySize ← maxBodySizeOfPolicies pols;
    if (maxBodySize =? "")%string then Ok PoliciesKV.zeroResult
    else
      Ok {| PoliciesKV.KeyVals := None;
            PoliciesKV.Files :=
              mk_slice
                [{| PoliciesKV.Name :=
                      "ClientSettingsPolicy_" ++ HTTP.HTTPMatchKey location ++ "_redirect.conf";
                    PoliciesKV.Content := tmplExternalRedirect maxBodySize |}] |}.

End Generator.

End ClientSettingsUnits.

(** ** Package state: route precedence *)

Module State.

(** Modelled from the spec: the declarations of [Route], of its method
    [GetMatch] and of [getResourceKey] are not among the sources. A route
    carries "a namespace/name identity and a creation timestamp" and is
    compared "via the single Match relevant to the comparison context";
    its resource key is the "namespace/name string". A timestamp is the
    instant it denotes. *)
Record HTTPHeaderMatch : Type := {
  HeaderName : string;
  HeaderValue : string
}.

Record HTTPQueryParamMatch : Type := {
  ParamName : string;
  ParamValue : string
}.

Record HTTPRouteMatch : Type := {
  Headers : list HTTPHeaderMatch;
  QueryParams : list HTTPQueryParamMatch
}.

Record ObjectMeta : Type := {
  Namespace : string;
  Name : string;
  CreationTimestamp : Z
}.

Record Route : Type := {
  Source : ObjectMeta;          (* Source.ObjectMeta *)
  GetMatch : HTTPRouteMatch
}.

(** Modelled from the spec: the resource key is the "namespace/name string". *)
Definition getResourceKey (meta : ObjectMeta) : string :=
  Namespace meta ++ "/" ++ Name meta.

Definition lessObjectMeta (meta1 meta2 : ObjectMeta) : bool :=
  if CreationTimestamp meta1 =? CreationTimestamp meta2 then
    String.ltb (getResourceKey meta1) (getResourceKey meta2)
  else
    CreationTimestamp meta1 <? CreationTimestamp meta2.

(** Returns true if route1 has a higher priority than route2. *)
Definition higherPriority (route1 route2 : Route) : bool :=
  let match1 := GetMatch route1 in
  let match2 := GetMatch route2 in
  let l1 := length (Headers match1) in
  let l2 := length (Headers match2) in
  if negb (l1 =? l2)%nat then (l2 <? l1)%nat
  else
    let l1 := length (QueryParams match1) in
    let l2 := length (QueryParams match2) in
    if negb (l1 =? l2)%nat then (l2 <? l1)%nat
    else lessObjectMeta (Source route1) (Source route2).

(** The inner loop of the insertion sort of [sort.SliceStable]: the element
    [x] at index [j] is swapped with its left neighbour while
    [less(j, j-1)]. The elements on its left are given from right to left. *)
Fixpoint insertLeft {A : Type} (less : A -> A -> bool) (x : A) (left : list A) : list A :=
  match left with
  | y :: ys => if less x y then y :: insertLeft less x ys else x :: left
  | [] => [x]
  end.

(** [sort.SliceStable(data, less)] as its insertion sort, which it runs on
    each block of at most 20 elements before merging the blocks: every
    element in turn moves left past the elements it is less than. For a
    [less] that is asymmetric and negatively transitive every stable sort
    returns the same list ([SliceStable_unique] below), so the merge of the
    blocks does not change the result. *)
Definition SliceStable {A : Type} (less : A -> A -> bool) (data : list A) : list A :=
  rev (foldl (fun sorted x => insertLeft less x sorted) [] data).

Definition sortRoutes (routes : list Route) : list Route :=
  SliceStable higherPriority routes.

(** [sort.Strings(keys)] sorts in increasing byte order. Strings that
    compare equal are equal, so every sorting algorithm returns the same
    list ([sort_Strings_unique] below); it is given as the insertion sort
    above. *)
Definition sort_Strings (keys : list string) : list string :=
  SliceStable String.ltb keys.

(** The interface [mapper]: a value with a method [Keys() []string]. *)
Record mapper : Type := {
  Keys : list string
}.

Definition getSortedKeys (m : mapper) : list string :=
  sort_Strings (Keys m).

End State.

(** ** Package tests: the supported features of the conformance suite *)

Module Conformance.

(** [strings.Split(s, ",")]: the substrings of [s] between the commas; a
    string without comma, the empty string too, gives one substring. *)
Fixpoint Split (s : string) : list string :=
  match s with
  | EmptyString => [EmptyString]
  | String c rest =>
      if (c =? ",")%char then EmptyString :: Split rest
      else match Split rest with
           | value :: values => String c value :: values
           | [] => [String c EmptyString]
           end
  end.

(** [parseSupportedFeatures] parses flag arguments and converts the string
    to a set of features; [None] is the nil set. *)
Definition parseSupportedFeatures (f : string) : option (gset string) :=
  if (f =? "")%string then None
  else Some (foldl (fun res value => {[ value ]} ∪ res) ∅ (Split f)).

End Conformance.

(** ** Fixtures for the examples *)

Module Fixtures.

(** A generator that returns the same result at its three entry points. *)
Definition constantKV (r : PoliciesKV.GenerateResult) : PoliciesKV.Generator :=
  {| PoliciesKV.GenerateForLocation := fun _ _ => Ok r;
     PoliciesKV.GenerateForInternalLocation := fun _ _ => Ok r;
     PoliciesKV.GenerateForServer := fun _ _ => Ok r |}.

Definition fileA : PoliciesKV.File :=
  {| PoliciesKV.Name := "a.conf"; PoliciesKV.Content := "a" |}.

Definition withKey (k : string) (v : Z) : PoliciesKV.GenerateResult :=
  {| PoliciesKV.KeyVals := Some {[ k := PoliciesKV.AnyInt v ]};
     PoliciesKV.Files := mk_slice [fileA] |}.

Definition location : HTTP.Location :=
  {| HTTP.Type_ := "external"; HTTP.HTTPMatchKey := "1_0" |}.

Definition server : HTTP.Server := {| HTTP.ServerName := "cafe.example.com" |}.

(** Renderers standing for the two fixed templates. *)
Definition tmpl (spec : API.ClientSettingsPolicySpec) : string :=
  match API.Body spec with
  | Some body =>
      match API.MaxSize body with
      | Some size => "client_max_body_size " ++ size ++ ";"
      | None => ""
      end
  | None => ""
  end.

Definition tmplExternalRedirect (size : API.Size) : string :=
  "client_max_body_size " ++ size ++ ";".

Definition policyWithMaxSize (name : string) (size : option API.Size) : API.Policy :=
  API.IsClientSettingsPolicy
    {| API.Kind := "ClientSettingsPolicy";
       API.Namespace := "default";
       API.Name := name;
       API.Spec := {| API.Body := Some {| API.MaxSize := size; API.Timeout := None |};
                      API.KeepAlive := None |} |}.

Definition otherPolicy : API.Policy := API.OtherPolicy "ObservabilityPolicy" "default" "obs".

Definition clientSettings : Policies.Generator :=
  ClientSettingsUnits.NewGenerator tmpl tmplExternalRedirect.

(** A generator that returns one fixed file per entry point. *)
Definition fixedFiles : Policies.Generator :=
  {| Policies.GenerateForServer := fun _ =>
       Ok (mk_slice [{| Policies.ServerFileName := "fixed.conf";
                        Policies.ServerFileContent := "f" |}]);
     Policies.GenerateForPathRule := fun _ => Ok nil_slice;
     Policies.GenerateForMatchRule := fun _ =>
       Ok (mk_slice [{| Policies.Name := "fixed_int.conf";
                        Policies.Type_ := Policies.Internal;
                        Policies.Content := "f" |}]) |}.

Definition matchRule1 : Dataplane.MatchRule :=
  {| Dataplane.Policies := [policyWithMaxSize "csp1" (Some "1m"); otherPolicy] |}.

Definition matchRule2 : Dataplane.MatchRule :=
  {| Dataplane.Policies := [policyWithMaxSize "csp2" (Some "2m")] |}.

Definition pathRule : Dataplane.PathRule :=
  {| Dataplane.Path := "/coffee/latte";
     Dataplane.PathType_ := "prefix";
     Dataplane.MatchRules := [matchRule1; matchRule2] |}.


(** Two policies that set the same one-digit size. *)
Definition sameDigitPolicies : list API.Policy :=
  [policyWithMaxSize "csp1" (Some "5"); policyWithMaxSize "csp2" (Some "5")].

Definition sameDigitPathRule : Dataplane.PathRule :=
  {| Dataplane.Path := "/";
     Dataplane.PathType_ := "prefix";
     Dataplane.MatchRules := [{| Dataplane.Policies := sameDigitPolicies |}] |}.

Definition emptyPathRule : Dataplane.PathRule :=
  {| Dataplane.Path := "/tea";
     Dataplane.PathType_ := "exact";
     Dataplane.MatchRules := [{| Dataplane.Policies := [otherPolicy] |}] |}.


Definition route (ns name : string) (ts : Z) (headers queryParams : nat) : State.Route :=
  {| State.Source := {| State.Namespace := ns; State.Name := name;
                        State.CreationTimestamp := ts |};
     State.GetMatch :=
       {| State.Headers :=
            replicate headers {| State.HeaderName := "h"; State.HeaderValue := "v" |};
          State.QueryParams :=
            replicate queryParams {| State.ParamName := "q"; State.ParamValue := "v" |} |} |}.

Definition sampleFiles : Policies.GenerateForLocationResult :=
  mk_slice
    [{| Policies.Name := "p_int.conf"; Policies.Type_ := Policies.Internal; Policies.Content := "x" |};
     {| Policies.Name := "p_ext.conf"; Policies.Type_ := Policies.External; Policies.Content := "x" |};
     {| Policies.Name := "r_redirect.conf"; Policies.Type_ := Policies.ExternalRedirect;
        Policies.Content := "y" |};
     {| Policies.Name := "q_int.conf"; Policies.Type_ := Policies.Internal; Policies.Content := "z" |}].

End Fixtures.

(** ** Predicates used in the statements *)

(** Exactly one of three propositions holds. *)
Definition one_of_three (a b c : Prop) : Prop :=
  (a /\ ~ b /\ ~ c) \/ (~ a /\ b /\ ~ c) \/ (~ a /\ ~ b /\ c).


(** Neither of two elements is less than the other: the comparator finds
    no criterion that tells them apart. *)
Definition tied {A : Type} (less : A -> A -> bool) (a b : A) : bool :=
  negb (less a b) && negb (less b a).

(** No element is less than one that stands before it. *)
Definition sortedBy {A : Type} (less : A -> A -> bool) (l : list A) : Prop :=
  StronglySorted (fun a b => less b a = false) l.

(** The elements on the left of the moving element of the insertion sort,
    read from right to left: none is less than one on its left. *)
Definition leftSorted {A : Type} (less : A -> A -> bool) (left : list A) : Prop :=
  StronglySorted (fun later earlier => less later earlier = false) left.

(** The four quantities [higherPriority] reads off a route. *)
Definition headerCount (r : State.Route) : nat :=
  length (State.Headers (State.GetMatch r)).
Definition queryParamCount (r : State.Route) : nat :=
  length (State.QueryParams (State.GetMatch r)).
Definition created (r : State.Route) : Z :=
  State.CreationTimestamp (State.Source r).
Definition resourceKey (r : State.Route) : string :=
  State.getResourceKey (State.Source r).

(** The maximum body size a policy contributes to the merge, if any: that
    of a client settings policy with a body that sets one. *)
Definition bodyMaxSize (pol : API.Policy) : option API.Size :=
  match API.asClientSettingsPolicy pol with
  | Some csp =>
      match API.Body (API.Spec csp) with
      | Some body => API.MaxSize body
      | None => None
      end
  | None => None
  end.

(** No policy of the list contributes a maximum body size (an empty size
    is no size). *)
Definition noBodyMaxSize (pols : list API.Policy) : Prop :=
  Forall (fun pol => bodyMaxSize pol = None \/ bodyMaxSize pol = Some "") pols.

(** The policies attached to the match rules of a path rule, in the order
    in which the path-rule entry point visits them. *)
Definition attachedPolicies (rule : Dataplane.PathRule) : list API.Policy :=
  List.flat_map Dataplane.Policies (Dataplane.MatchRules rule).

(** No policy of the list is a client settings policy. *)
Definition noClientSettings (pols : list API.Policy) : Prop :=
  Forall (fun pol => API.asClientSettingsPolicy pol = None) pols.

(** The client settings policies among the policies of a list, in order. *)
Definition clientSettingsOf (pols : list API.Policy) : list API.ClientSettingsPolicy :=
  omap API.asClientSettingsPolicy pols.

(** The byte [c] occurs in [s]. *)
Fixpoint occurs (c : ascii) (s : string) : bool :=
  match s with
  | EmptyString => false
  | String c' s' => (c =? c')%char || occurs c s'
  end.

(** [s] ends with [suffix]. *)
Definition endsWith (s suffix : string) : bool :=
  (String.length suffix <=? String.length s)%nat
  && (substring (String.length s - String.length suffix) (String.length suffix) s
      =? suffix)%string.

(** The name ends with one of the four scope suffixes and the extension. *)
Definition hasScopeSuffix (name : string) : bool :=
  existsb (fun scope => endsWith name ("_" ++ scope ++ ".conf"))
          ["server"; "int"; "ext"; "redirect"].

Definition internalFileName (csp : API.ClientSettingsPolicy) : string :=
  API.Kind csp ++ "_" ++ API.Namespace csp ++ "_" ++ API.Name csp ++ "_int.conf".
Definition externalFileName (csp : API.ClientSettingsPolicy) : string :=
  API.Kind csp ++ "_" ++ API.Namespace csp ++ "_" ++ API.Name csp ++ "_ext.conf".
Definition redirectFileName (pathType path : string) : string :=
  "ClientSettingsPolicy_" ++ pathType ++ "_"
  ++ ClientSettingsUnits.removeSlashFromPath path ++ "_redirect.conf".

(** The strings of a list with a comma between them, as [strings.Join]
    writes them. *)
Fixpoint Join (values : list string) : string :=
  match values with
  | [] => ""
  | [value] => value
  | value :: rest => value ++ "," ++ Join rest
  end.

(** The rank of a size in the merge: the empty size ranks below every
    size, a size that parses ranks by its bytes. *)
Definition sizeRank (s : string) : Z :=
  if (s =? "")%string then -1
  else match ClientSettings.parseSizeToBytes s with
       | inl b => b
       | inr _ => -1
       end.

(** An empty size or a literal of the grammar. *)
Definition emptyOrLiteral (s : string) : Prop := s = "" \/ size_grammar s.

(** A composite generator is itself a generator: the pointer to it has the
    three methods of the interface. *)
Definition compositeGenerator (g : Policies.CompositeGenerator) : Policies.Generator :=
  {| Policies.GenerateForServer := Policies.Composite.GenerateForServer g;
     Policies.GenerateForPathRule := Policies.Composite.GenerateForPathRule g;
     Policies.GenerateForMatchRule := Policies.Composite.GenerateForMatchRule g |}.

(** A Go map value without entries: the nil map or an empty map. *)
Definition noEntries (m : option (gmap string PoliciesKV.any)) : Prop :=
  m = None \/ m = Some ∅.

(** * Properties *)

(** ** Slices *)

Lemma append_nil {A : Type} (s : slice A) : append s [] = s.
Proof. reflexivity. Qed.

Lemma elems_append {A : Type} (s : slice A) (xs : list A) :
  elems (append s xs) = (elems s ++ xs)%list.
Proof. destruct xs; simpl; [by rewrite app_nil_r | done]. Qed.

Lemma append_append {A : Type} (s : slice A) (xs ys : list A) :
  append (append s xs) ys = append s (xs ++ ys).
Proof.
  destruct xs as [|x xs]; [done|].
  destruct ys as [|y ys]; simpl; [by rewrite app_nil_r|].
  by rewrite <- app_assoc.
Qed.

(** A loop that appends the elements passing a test is a filter, and the
    slice it started from stays non-nil. *)
Lemma foldl_append_filter {A : Type} (P : A -> bool) (l : list A) (acc : list A) :
  foldl (fun files f => if P f then append files [f] else files) (mk_slice acc) l
  = mk_slice (acc ++ List.filter P l).
Proof.
  revert acc. induction l as [|x l IH]; intros acc; simpl.
  - by rewrite app_nil_r.
  - destruct (P x); simpl; [|apply IH].
    rewrite IH. by rewrite <- app_assoc.
Qed.

Lemma filter_sublist {A : Type} (P : A -> bool) (l : list A) :
  sublist (List.filter P l) l.
Proof.
  induction l as [|x l IH]; simpl; [constructor|].
  destruct (P x); by constructor.
Qed.

(** ** The location filters *)

Module PoliciesProps.

Import Policies.

Lemma ForInternalLocation_filter (locFile : GenerateForLocationResult) :
  ForInternalLocation locFile
  = mk_slice (List.filter (fun f => Type_ f =? Internal) (elems locFile)).
Proof. unfold ForInternalLocation, make_slice. by rewrite foldl_append_filter. Qed.

Lemma ForExternalLocation_filter (locFile : GenerateForLocationResult) :
  ForExternalLocation locFile
  = mk_slice (List.filter (fun f => Type_ f =? External) (elems locFile)).
Proof. unfold ForExternalLocation, make_slice. by rewrite foldl_append_filter. Qed.

Lemma ForExternalRedirectLocation_filter (locFile : GenerateForLocationResult) :
  ForExternalRedirectLocation locFile
  = mk_slice (List.filter (fun f => Type_ f =? ExternalRedirect) (elems locFile)).
Proof. unfold ForExternalRedirectLocation, make_slice. by rewrite foldl_append_filter. Qed.

(** C10: the filters [ForInternalLocation], [ForExternalLocation] and
    [ForExternalRedirectLocation] keep exactly the files whose type is
    [Internal], [External] and [ExternalRedirect]; each output is the input
    filtered, so the relative order of the files is that of the input; a
    file of the result whose type is one of the three constants is in
    exactly one of the outputs. *)
Theorem filters_partition_by_type (locFile : GenerateForLocationResult) :
  (elems (ForInternalLocation locFile)
     = List.filter (fun f => Type_ f =? Internal) (elems locFile)
   /\ elems (ForExternalLocation locFile)
     = List.filter (fun f => Type_ f =? External) (elems locFile)
   /\ elems (ForExternalRedirectLocation locFile)
     = List.filter (fun f => Type_ f =? ExternalRedirect) (elems locFile))
  /\ (forall f,
        (In f (elems (ForInternalLocation locFile))
           <-> In f (elems locFile) /\ Type_ f = Internal)
        /\ (In f (elems (ForExternalLocation locFile))
           <-> In f (elems locFile) /\ Type_ f = External)
        /\ (In f (elems (ForExternalRedirectLocation locFile))
           <-> In f (elems locFile) /\ Type_ f = ExternalRedirect))
  /\ (sublist (elems (ForInternalLocation locFile)) (elems locFile)
      /\ sublist (elems (ForExternalLocation locFile)) (elems locFile)
      /\ sublist (elems (ForExternalRedirectLocation locFile)) (elems locFile))
  /\ (forall f,
        In f (elems locFile) ->
        Type_ f = Internal \/ Type_ f = External \/ Type_ f = ExternalRedirect ->
        one_of_three (In f (elems (ForInternalLocation locFile)))
                     (In f (elems (ForExternalLocation locFile)))
                     (In f (elems (ForExternalRedirectLocation locFile)))).
Proof.
  rewrite ForInternalLocation_filter, ForExternalLocation_filter,
    ForExternalRedirectLocation_filter. simpl.
  assert (Hin : forall (t : LocationType) f,
             In f (List.filter (fun f => Type_ f =? t) (elems locFile))
             <-> In f (elems locFile) /\ Type_ f = t).
  { intros t f. rewrite List.filter_In, Z.eqb_eq. reflexivity. }
  split; [done|]. split; [intros f; by rewrite !Hin|].
  split; [repeat split; apply filter_sublist|].
  intros f Hf Ht. unfold one_of_three. rewrite !Hin.
  unfold Internal, External, ExternalRedirect in *. intuition lia.
Qed.

Lemma filters_partition_by_type_witness :
  one_of_three
    (In {| Name := "p_ext.conf"; Type_ := External; Content := "x" |}
        (elems (ForInternalLocation Fixtures.sampleFiles)))
    (In {| Name := "p_ext.conf"; Type_ := External; Content := "x" |}
        (elems (ForExternalLocation Fixtures.sampleFiles)))
    (In {| Name := "p_ext.conf"; Type_ := External; Content := "x" |}
        (elems (ForExternalRedirectLocation Fixtures.sampleFiles))).
Proof.
  apply (proj2 (proj2 (proj2 (filters_partition_by_type Fixtures.sampleFiles)))).
  - simpl. right. left. reflexivity.
  - right. left. reflexivity.
Defined.

(** A file whose type is none of the three constants is in no output. *)
Lemma filters_drop_other_types (locFile : GenerateForLocationResult) f :
  Type_ f <> Internal -> Type_ f <> External -> Type_ f <> ExternalRedirect ->
  ~ In f (elems (ForInternalLocation locFile))
  /\ ~ In f (elems (ForExternalLocation locFile))
  /\ ~ In f (elems (ForExternalRedirectLocation locFile)).
Proof.
  intros H1 H2 H3.
  rewrite ForInternalLocation_filter, ForExternalLocation_filter,
    ForExternalRedirectLocation_filter. simpl.
  rewrite !List.filter_In, !Z.eqb_eq. tauto.
Qed.

End PoliciesProps.

(** ** The composite generators *)

Module CompositeProps.

Lemma bind_Ok {A B : Type} (a : A) (k : A -> Res B) : (Ok a ≫= k) = k a.
Proof. reflexivity. Qed.

Lemma bind_Panic {A B : Type} (p : panic_value) (k : A -> Res B) :
  (Panic p ≫= k) = Panic p.
Proof. reflexivity. Qed.

Section FanOut.

Context {G A : Type} (call : G -> Res (slice A)).

Let step : Res (slice A) -> G -> Res (slice A) :=
  fun acc generator =>
    results ← acc; r ← call generator; Ok (append results (elems r)).

(** Once a member has panicked the loop is left. *)
Lemma fanOut_panic (p : panic_value) (gens : list G) :
  foldl step (Panic p) gens = Panic p.
Proof. induction gens as [|g gens IH]; simpl; [done|apply IH]. Qed.

(** When every member returns, the loop returns the files appended so far
    followed by the members' files in the order of the members. *)
Lemma fanOut_append (gens : list G) (outs : list (slice A)) (acc : slice A) :
  Forall2 (fun g o => call g = Ok o) gens outs ->
  foldl step (Ok acc) gens = Ok (append acc (List.concat (List.map elems outs))).
Proof.
  intros H. revert acc.
  induction H as [|g o gens outs Hg _ IH]; intros acc; simpl; [done|].
  by rewrite Hg, bind_Ok, IH, append_append.
Qed.

(** The first member that panics makes the whole loop panic. *)
Lemma fanOut_first_panic (pre post : list G) (outs : list (slice A)) g p (acc : slice A) :
  Forall2 (fun g o => call g = Ok o) pre outs ->
  call g = Panic p ->
  foldl step (Ok acc) (pre ++ g :: post) = Panic p.
Proof.
  intros Hpre Hg. rewrite foldl_app, (fanOut_append _ _ _ Hpre). simpl.
  rewrite Hg, bind_Panic. apply fanOut_panic.
Qed.

End FanOut.

Import Policies.



(** A member that panics makes the composite panic: no file is returned. *)
Lemma composite_member_panics (pre post : list Generator) outs g p rule :
  Forall2 (fun g o => GenerateForPathRule g rule = Ok o) pre outs ->
  GenerateForPathRule g rule = Panic p ->
  Composite.GenerateForPathRule (NewCompositeGenerator (pre ++ g :: post)) rule = Panic p.
Proof. intros. by eapply fanOut_first_panic. Qed.

End CompositeProps.

(** ** The composite generator over results with a key-value map *)

Module KVProps.

Import PoliciesKV CompositeProps.

Lemma maps_Copy_into_map (d : gmap string any) (s : gmap string any) :
  maps_Copy (Some d) (Some s) = Ok (Some (s ∪ d)).
Proof.
  unfold maps_Copy.
  apply (map_fold_weak_ind
           (fun r m => r = Ok (Some (m ∪ d)))
           (fun k v acc => d ← acc; assign d k v)).
  - by rewrite (left_id_L ∅ (∪)).
  - intros i x m r _ ->. rewrite bind_Ok. simpl.
    by rewrite insert_union_l.
Qed.

Lemma maps_Copy_into_nil (s : gmap string any) :
  (s = ∅ -> maps_Copy None (Some s) = Ok None)
  /\ (s <> ∅ -> maps_Copy None (Some s) = Panic PanicNilMap).
Proof.
  unfold maps_Copy.
  apply (map_fold_weak_ind
           (fun r m => (m = ∅ -> r = Ok None) /\ (m <> ∅ -> r = Panic PanicNilMap))
           (fun k v acc => d ← acc; assign d k v)).
  - split; [done|]. by intros [].
  - intros i x m r _ [He Hne]. split.
    + intros H. by apply insert_non_empty in H.
    + intros _. destruct (decide (m = ∅)) as [E|E].
      * by rewrite (He E).
      * by rewrite (Hne E).
Qed.

Lemma maps_Copy_noEntries dst src : noEntries src -> maps_Copy dst src = Ok dst.
Proof. intros [-> | ->]; [done|]. unfold maps_Copy. by rewrite map_fold_empty. Qed.

Lemma maps_Copy_nil_panics (s : gmap string any) :
  s <> ∅ -> maps_Copy None (Some s) = Panic PanicNilMap.
Proof. apply maps_Copy_into_nil. Qed.

Section Loop.

Context (call : Generator -> Res GenerateResult).

Let step : Res GenerateResult -> Generator -> Res GenerateResult :=
  fun acc generator =>
    compositeResult ← acc; result ← call generator; mergeResult compositeResult result.

Lemma loop_panic (p : panic_value) (gens : list Generator) :
  foldl step (Panic p) gens = Panic p.
Proof. induction gens as [|g gens IH]; simpl; [done|apply IH]. Qed.

(** The map of the composite result is never allocated: the loop keeps it
    nil for as long as the members return maps without entries. *)
Lemma loop_noEntries (gens : list Generator) (outs : list GenerateResult) (files : slice File) :
  Forall2 (fun g o => call g = Ok o /\ noEntries (KeyVals o)) gens outs ->
  foldl step (Ok {| KeyVals := None; Files := files |}) gens
  = Ok {| KeyVals := None;
          Files := append files (List.concat (List.map (fun o => elems (Files o)) outs)) |}.
Proof.
  intros H. revert files.
  induction H as [|g o gens outs [Hg Ho] _ IH]; intros files; simpl; [done|].
  rewrite Hg, bind_Ok. unfold mergeResult. simpl.
  rewrite (maps_Copy_noEntries _ _ Ho), bind_Ok, IH.
  by rewrite append_append.
Qed.

(** The first member whose map has an entry makes the loop panic. *)
Lemma loop_entry_panics (pre post : list Generator) (outs : list GenerateResult) g o m
    (files : slice File) :
  Forall2 (fun g o => call g = Ok o /\ noEntries (KeyVals o)) pre outs ->
  call g = Ok o -> KeyVals o = Some m -> m <> ∅ ->
  foldl step (Ok {| KeyVals := None; Files := files |}) (pre ++ g :: post)
  = Panic PanicNilMap.
Proof.
  intros Hpre Hg Ho Hm. rewrite foldl_app, (loop_noEntries _ _ _ Hpre). simpl.
  rewrite Hg, bind_Ok. unfold mergeResult. simpl.
  rewrite Ho, (maps_Copy_nil_panics _ Hm), bind_Panic. apply loop_panic.
Qed.

(** Whatever the loop returns carries the nil map. *)
Lemma loop_returns_nil_map (gens : list Generator) (acc : Res GenerateResult) r :
  (forall a, acc = Ok a -> KeyVals a = None) ->
  foldl step acc gens = Ok r -> KeyVals r = None.
Proof.
  revert acc. induction gens as [|g gens IH]; intros acc Hacc; simpl.
  - intros ->. by apply Hacc.
  - apply IH. intros a. unfold step.
    destruct acc as [c|p]; [|done]. rewrite bind_Ok.
    destruct (call g) as [o|p]; [|done]. rewrite bind_Ok.
    unfold mergeResult. rewrite (Hacc c eq_refl).
    destruct (KeyVals o) as [m|].
    + destruct (decide (m = ∅)) as [E|E].
      * rewrite (proj1 (maps_Copy_into_nil m) E), bind_Ok. by intros [= <-].
      * by rewrite (maps_Copy_nil_panics m E).
    + simpl. by intros [= <-].
Qed.

End Loop.

(** Whenever the composite returns, its map is nil: no entry of a member
    is ever copied into it. *)
Lemma composite_returns_nil_map (gens : list Generator) pols location r :
  Composite.GenerateForLocation (NewCompositeGenerator gens) pols location = Ok r ->
  KeyVals r = None.
Proof. apply loop_returns_nil_map. by intros a [= <-]. Qed.

(** Whenever a member returns a map with an entry, and the members before
    it returned maps without entries, the composite panics. *)
Lemma composite_entry_panics (pre post : list Generator) outs g o m pols location :
  Forall2 (fun g o => GenerateForLocation g pols location = Ok o /\ noEntries (KeyVals o))
          pre outs ->
  GenerateForLocation g pols location = Ok o -> KeyVals o = Some m -> m <> ∅ ->
  Composite.GenerateForLocation (NewCompositeGenerator (pre ++ g :: post)) pols location
  = Panic PanicNilMap.
Proof. intros. by eapply loop_entry_panics. Qed.

(** When every member returns a map without entries, each entry point of
    the composite returns the members' files in registration order. *)
Lemma composite_files_without_entries (gens : list Generator) pols location server :
  (forall outs,
      Forall2 (fun g o => GenerateForLocation g pols location = Ok o
                          /\ noEntries (KeyVals o)) gens outs ->
      Composite.GenerateForLocation (NewCompositeGenerator gens) pols location
      = Ok {| KeyVals := None;
              Files := append nil_slice
                         (List.concat (List.map (fun o => elems (Files o)) outs)) |})
  /\ (forall outs,
      Forall2 (fun g o => GenerateForInternalLocation g pols location = Ok o
                          /\ noEntries (KeyVals o)) gens outs ->
      Composite.GenerateForInternalLocation (NewCompositeGenerator gens) pols location
      = Ok {| KeyVals := None;
              Files := append nil_slice
                         (List.concat (List.map (fun o => elems (Files o)) outs)) |})
  /\ (forall outs,
      Forall2 (fun g o => GenerateForServer g pols server = Ok o
                          /\ noEntries (KeyVals o)) gens outs ->
      Composite.GenerateForServer (NewCompositeGenerator gens) pols server
      = Ok {| KeyVals := None;
              Files := append nil_slice
                         (List.concat (List.map (fun o => elems (Files o)) outs)) |}).
Proof. repeat split; intros outs H; by apply (loop_noEntries _ _ _ _ H). Qed.

(** The client settings generator never sets a map, so a composite over
    client settings generators returns: the panic needs a member that
    returns a map with an entry. *)
Lemma clientSettings_nil_map tmpl tmplExternalRedirect ExternalLocationType pols location r :
  ClientSettings.GenerateForLocation tmpl tmplExternalRedirect ExternalLocationType
    pols location = Ok r ->
  KeyVals r = None.
Proof.
  unfold ClientSettings.GenerateForLocation.
  destruct (HTTP.Type_ location =? ExternalLocationType)%string; [by intros [= <-]|].
  destruct (ClientSettings.mergedMaxBodySize pols) as [s|]; [|done].
  rewrite bind_Ok. destruct (s =? "")%string; by intros [= <-].
Qed.

Example composite_of_clientSettings :
  Composite.GenerateForLocation
    (NewCompositeGenerator
       [ClientSettings.NewGenerator Fixtures.tmpl Fixtures.tmplExternalRedirect "external";
        ClientSettings.NewGenerator Fixtures.tmpl Fixtures.tmplExternalRedirect "external"])
    [Fixtures.policyWithMaxSize "csp1" (Some "1m"); Fixtures.otherPolicy]
    Fixtures.location
  = Ok {| KeyVals := None;
          Files := mk_slice
                     [{| Name := "ClientSettingsPolicy_default_csp1_ext.conf";
                         Content := "client_max_body_size 1m;" |};
                      {| Name := "ClientSettingsPolicy_default_csp1_ext.conf";
                         Content := "client_max_body_size 1m;" |}] |}.
Proof. vm_compute. reflexivity. Qed.

(** C5: a member that returns a map with an entry makes each entry point of
    the composite panic with an assignment to an entry of the nil map, for a
    single member and for two members that set the same key; no merged map
    is returned. *)
Theorem composite_keyvals_copy_into_nil_map :
  Composite.GenerateForLocation
    (NewCompositeGenerator [Fixtures.constantKV (Fixtures.withKey "a" 1)])
    [] Fixtures.location = Panic PanicNilMap
  /\ Composite.GenerateForLocation
    (NewCompositeGenerator [Fixtures.constantKV (Fixtures.withKey "a" 1);
                            Fixtures.constantKV (Fixtures.withKey "a" 2)])
    [] Fixtures.location = Panic PanicNilMap
  /\ Composite.GenerateForInternalLocation
    (NewCompositeGenerator [Fixtures.constantKV (Fixtures.withKey "a" 1);
                            Fixtures.constantKV (Fixtures.withKey "a" 2)])
    [] Fixtures.location = Panic PanicNilMap
  /\ Composite.GenerateForServer
    (NewCompositeGenerator [Fixtures.constantKV (Fixtures.withKey "a" 1);
                            Fixtures.constantKV (Fixtures.withKey "a" 2)])
    [] Fixtures.server = Panic PanicNilMap.
Proof. repeat split; vm_compute; reflexivity. Qed.

End KVProps.

(** ** Route precedence *)

Module StateProps.

Import State.

(** *** The order of byte strings *)

Lemma ascii_compare_refl (a : ascii) : Ascii.compare a a = Eq.
Proof. apply N.compare_refl. Qed.

Lemma ascii_compare_lt_trans (a b c : ascii) :
  Ascii.compare a b = Lt -> Ascii.compare b c = Lt -> Ascii.compare a c = Lt.
Proof.
  unfold Ascii.compare. rewrite !N.compare_lt_iff. apply N.lt_trans.
Qed.

Lemma string_compare_refl (s : string) : String.compare s s = Eq.
Proof. induction s as [|a s IH]; simpl; [done|]. by rewrite ascii_compare_refl. Qed.

Lemma string_compare_lt_trans (a b c : string) :
  String.compare a b = Lt -> String.compare b c = Lt -> String.compare a c = Lt.
Proof.
  revert b c. induction a as [|x a IH]; intros [|y b] [|z c]; simpl; try done.
  destruct (Ascii.compare x y) eqn:Exy; try done;
    destruct (Ascii.compare y z) eqn:Eyz; try done; intros H1 H2.
  - apply Ascii.compare_eq_iff in Exy, Eyz. subst.
    rewrite ascii_compare_refl. by eapply IH.
  - apply Ascii.compare_eq_iff in Exy. subst. by rewrite Eyz.
  - apply Ascii.compare_eq_iff in Eyz. subst. by rewrite Exy.
  - by rewrite (ascii_compare_lt_trans _ _ _ Exy Eyz).
Qed.

Lemma ltb_irrefl (s : string) : String.ltb s s = false.
Proof. unfold String.ltb. by rewrite string_compare_refl. Qed.

Lemma ltb_trans (a b c : string) :
  String.ltb a b = true -> String.ltb b c = true -> String.ltb a c = true.
Proof.
  unfold String.ltb.
  destruct (String.compare a b) eqn:E1; try done.
  destruct (String.compare b c) eqn:E2; try done.
  by rewrite (string_compare_lt_trans _ _ _ E1 E2).
Qed.

Lemma ltb_asym (a b : string) : String.ltb a b = true -> String.ltb b a = false.
Proof.
  unfold String.ltb. rewrite (String.compare_antisym b a).
  by destruct (String.compare a b).
Qed.

Lemma ltb_total (a b : string) :
  a <> b -> String.ltb a b = true \/ String.ltb b a = true.
Proof.
  intros Hne. unfold String.ltb. rewrite (String.compare_antisym b a).
  destruct (String.compare a b) eqn:E; simpl; auto.
  by apply String.compare_eq_iff in E.
Qed.

Lemma ltb_tied_eq (a b : string) :
  String.ltb a b = false -> String.ltb b a = false -> a = b.
Proof.
  intros H1 H2. destruct (decide (a = b)) as [|Hne]; [done|].
  destruct (ltb_total a b Hne); congruence.
Qed.

Lemma ltb_negtrans (a b c : string) :
  String.ltb a b = false -> String.ltb b c = false -> String.ltb a c = false.
Proof.
  intros H1 H2. destruct (String.ltb a c) eqn:Hac; [|done].
  destruct (String.ltb c b) eqn:Hcb.
  - by rewrite (ltb_trans _ _ _ Hac Hcb) in H1.
  - rewrite (ltb_tied_eq _ _ H2 Hcb) in H1. congruence.
Qed.

(** *** The comparator *)

(** [higherPriority] in terms of the four quantities it compares. *)
Lemma higherPriority_unfold (r1 r2 : Route) :
  higherPriority r1 r2 =
  if negb (headerCount r1 =? headerCount r2)%nat then (headerCount r2 <? headerCount r1)%nat
  else if negb (queryParamCount r1 =? queryParamCount r2)%nat
       then (queryParamCount r2 <? queryParamCount r1)%nat
  else if created r1 =? created r2 then String.ltb (resourceKey r1) (resourceKey r2)
  else created r1 <? created r2.
Proof. reflexivity. Qed.

Ltac order_cases :=
  rewrite !higherPriority_unfold;
  repeat match goal with
    | |- context [(?a =? ?b)%nat] => destruct (Nat.eqb_spec a b); simpl
    | |- context [(?a <? ?b)%nat] => destruct (Nat.ltb_spec a b); simpl
    | |- context [(?a =? ?b)%Z] => destruct (Z.eqb_spec a b); simpl
    | |- context [(?a <? ?b)%Z] => destruct (Z.ltb_spec a b); simpl
    end;
  try done; try lia.

Lemma higherPriority_irrefl (r : Route) : higherPriority r r = false.
Proof. order_cases. apply ltb_irrefl. Qed.

Lemma higherPriority_asym (r1 r2 : Route) :
  higherPriority r1 r2 = true -> higherPriority r2 r1 = false.
Proof. order_cases. apply ltb_asym. Qed.

Lemma higherPriority_trans (r1 r2 r3 : Route) :
  higherPriority r1 r2 = true -> higherPriority r2 r3 = true ->
  higherPriority r1 r3 = true.
Proof. order_cases. apply ltb_trans. Qed.

Lemma higherPriority_negtrans (r1 r2 r3 : Route) :
  higherPriority r1 r2 = false -> higherPriority r2 r3 = false ->
  higherPriority r1 r3 = false.
Proof. order_cases. apply ltb_negtrans. Qed.

Lemma higherPriority_total (r1 r2 : Route) :
  resourceKey r1 <> resourceKey r2 ->
  higherPriority r1 r2 = true \/ higherPriority r2 r1 = true.
Proof. order_cases; auto. apply ltb_total. Qed.

(** Two routes are tied exactly when they agree on the four quantities. *)
Lemma tied_iff (r1 r2 : Route) :
  tied higherPriority r1 r2 = true <->
  headerCount r1 = headerCount r2 /\ queryParamCount r1 = queryParamCount r2
  /\ created r1 = created r2 /\ resourceKey r1 = resourceKey r2.
Proof.
  unfold tied. rewrite andb_true_iff, !negb_true_iff. split.
  - intros [H1 H2]. revert H1 H2. order_cases. intros H1 H2.
    repeat split; try done. by apply ltb_tied_eq.
  - intros (Hh & Hq & Ht & Hk). order_cases. by rewrite Hk, ltb_irrefl.
Qed.

(** *** The stable sort *)

Section StableSort.

Context {A : Type} (less : A -> A -> bool).
Hypothesis less_asym : forall a b, less a b = true -> less b a = false.
Hypothesis less_negtrans :
  forall a b c, less a b = false -> less b c = false -> less a c = false.

Lemma insertLeft_perm (x : A) (left : list A) :
  Permutation (insertLeft less x left) (x :: left).
Proof.
  induction left as [|y ys IH]; simpl; [done|].
  destruct (less x y); [|done].
  rewrite IH. apply perm_swap.
Qed.

Lemma SliceStable_perm_acc (data sorted : list A) :
  Permutation (foldl (fun sorted x => insertLeft less x sorted) sorted data)
              (rev data ++ sorted).
Proof.
  revert sorted. induction data as [|x data IH]; intros sorted; simpl; [done|].
  by rewrite IH, insertLeft_perm, <- app_assoc.
Qed.

Lemma SliceStable_perm (data : list A) : Permutation data (SliceStable less data).
Proof.
  unfold SliceStable. rewrite <- Permutation_rev, SliceStable_perm_acc, app_nil_r.
  apply Permutation_rev.
Qed.

Lemma insertLeft_sorted (x : A) (left : list A) :
  leftSorted less left -> leftSorted less (insertLeft less x left).
Proof.
  unfold leftSorted. induction left as [|y ys IH]; simpl; intros H.
  - repeat constructor.
  - apply StronglySorted_inv in H as [Hys Hy].
    destruct (less x y) eqn:Hxy.
    + constructor; [by apply IH|].
      rewrite (insertLeft_perm x ys). constructor; [by apply less_asym|done].
    + constructor; [by constructor|].
      constructor; [done|].
      eapply List.Forall_impl; [|exact Hy]. intros z Hz. by eapply less_negtrans.
Qed.

Lemma SliceStable_sorted_acc (data sorted : list A) :
  leftSorted less sorted ->
  leftSorted less (foldl (fun sorted x => insertLeft less x sorted) sorted data).
Proof.
  revert sorted. induction data as [|x data IH]; intros sorted H; simpl; [done|].
  by apply IH, insertLeft_sorted.
Qed.

Lemma leftSorted_rev (l : list A) : leftSorted less l -> sortedBy less (rev l).
Proof.
  unfold leftSorted, sortedBy. induction l as [|x l IH]; simpl; intros H.
  - constructor.
  - apply StronglySorted_inv in H as [Hl Hx].
    apply StronglySorted_app_2; [|by apply IH|repeat constructor].
    intros a b Ha Hb. apply list_elem_of_singleton in Hb as ->.
    apply list_elem_of_In in Ha. apply in_rev in Ha.
    rewrite List.Forall_forall in Hx. by apply Hx.
Qed.

Lemma SliceStable_sorted (data : list A) : sortedBy less (SliceStable less data).
Proof. apply leftSorted_rev, SliceStable_sorted_acc. constructor. Qed.

(** Moving an element left past one it is less than does not change the
    order among the elements tied with a given one. *)
Lemma insertLeft_stable (a x : A) (left : list A) :
  List.filter (tied less a) (rev (insertLeft less x left))
  = List.filter (tied less a) (rev left ++ [x]).
Proof.
  induction left as [|y ys IH]; simpl; [done|].
  destruct (less x y) eqn:Hxy; simpl; [|done].
  rewrite !List.filter_app, IH, List.filter_app, <- !app_assoc. f_equal.
  simpl. unfold tied.
  destruct (less a x) eqn:Hax, (less x a) eqn:Hxa,
           (less a y) eqn:Hay, (less y a) eqn:Hya; simpl; try done.
  by rewrite (less_negtrans x a y Hxa Hay) in Hxy.
Qed.

Lemma SliceStable_stable_acc (a : A) (data sorted : list A) :
  List.filter (tied less a)
    (rev (foldl (fun sorted x => insertLeft less x sorted) sorted data))
  = List.filter (tied less a) (rev sorted ++ data).
Proof.
  revert sorted. induction data as [|x data IH]; intros sorted; simpl.
  - by rewrite app_nil_r.
  - rewrite IH, !List.filter_app, insertLeft_stable, List.filter_app.
    rewrite <- app_assoc. f_equal.
    change (x :: data) with (([x] ++ data)%list). by rewrite List.filter_app.
Qed.

Lemma SliceStable_stable (a : A) (data : list A) :
  List.filter (tied less a) (SliceStable less data) = List.filter (tied less a) data.
Proof. unfold SliceStable. by rewrite SliceStable_stable_acc. Qed.

Lemma less_irrefl (a : A) : less a a = false.
Proof.
  destruct (less a a) eqn:H; [|done].
  pose proof (less_asym _ _ H). congruence.
Qed.

(** A list has one stable sorting only: two sorted permutations of each
    other that order the elements tied with any given one alike are equal. *)
Lemma stable_sort_unique (l1 l2 : list A) :
  Permutation l1 l2 -> sortedBy less l1 -> sortedBy less l2 ->
  (forall a, List.filter (tied less a) l1 = List.filter (tied less a) l2) ->
  l1 = l2.
Proof.
  revert l2. induction l1 as [|x t1 IH]; intros l2 Hperm Hs1 Hs2 Htied.
  - by apply Permutation_nil in Hperm.
  - destruct l2 as [|y t2]; [by apply Permutation_sym, Permutation_nil in Hperm|].
    apply StronglySorted_inv in Hs1 as [Hs1 Hx].
    apply StronglySorted_inv in Hs2 as [Hs2 Hy].
    rewrite List.Forall_forall in Hx, Hy.
    assert (Hxy : less x y = false).
    { destruct (less x y) eqn:E; [|done].
      assert (Hin : In x (y :: t2)) by (eapply Permutation_in; [exact Hperm|by left]).
      destruct Hin as [->|Hin]; [by rewrite less_irrefl in E|].
      by rewrite (Hy x Hin) in E. }
    assert (Hyx : less y x = false).
    { destruct (less y x) eqn:E; [|done].
      assert (Hin : In y (x :: t1))
        by (eapply Permutation_in; [apply Permutation_sym, Hperm|by left]).
      destruct Hin as [->|Hin]; [by rewrite less_irrefl in E|].
      by rewrite (Hx y Hin) in E. }
    assert (x = y) as <-.
    { specialize (Htied x). simpl in Htied.
      assert (Hxx : tied less x x = true) by (unfold tied; by rewrite less_irrefl).
      assert (Hty : tied less x y = true) by (unfold tied; by rewrite Hxy, Hyx).
      rewrite Hxx, Hty in Htied. by simplify_eq. }
    f_equal. apply IH; [by apply Permutation_cons_inv in Hperm|done|done|].
    intros a. specialize (Htied a). simpl in Htied.
    destruct (tied less a x); by simplify_eq.
Qed.

(** Hence every stable sort by [less], whatever its algorithm, returns what
    the insertion sort returns. *)
Lemma SliceStable_unique (data out : list A) :
  Permutation data out -> sortedBy less out ->
  (forall a, List.filter (tied less a) out = List.filter (tied less a) data) ->
  out = SliceStable less data.
Proof.
  intros Hperm Hsorted Hstable. apply stable_sort_unique.
  - by rewrite <- Hperm, <- SliceStable_perm.
  - done.
  - apply SliceStable_sorted.
  - intros a. by rewrite Hstable, SliceStable_stable.
Qed.

End StableSort.

Lemma sortRoutes_perm (routes : list Route) : Permutation routes (sortRoutes routes).
Proof. apply SliceStable_perm. Qed.

Lemma sortRoutes_sorted (routes : list Route) : sortedBy higherPriority (sortRoutes routes).
Proof.
  apply SliceStable_sorted;
    [apply higherPriority_asym | apply higherPriority_negtrans].
Qed.

Lemma sortRoutes_stable (r : Route) (routes : list Route) :
  List.filter (tied higherPriority r) (sortRoutes routes)
  = List.filter (tied higherPriority r) routes.
Proof. apply SliceStable_stable, higherPriority_negtrans. Qed.

Lemma sortRoutes_unique (routes sorted : list Route) :
  Permutation routes sorted -> sortedBy higherPriority sorted ->
  (forall r, List.filter (tied higherPriority r) sorted
             = List.filter (tied higherPriority r) routes) ->
  sorted = sortRoutes routes.
Proof.
  apply SliceStable_unique;
    [apply higherPriority_asym | apply higherPriority_negtrans].
Qed.

(** *** Precedence and stability *)

(** C2: [higherPriority] decides by the number of header matches when the
    two numbers differ (the larger wins); otherwise by the number of query
    parameter matches when they differ (the larger wins); otherwise by the
    creation timestamp when the two differ (the earlier wins); otherwise by
    the resource key (the smaller in the order of byte strings wins). *)
Theorem higherPriority_criteria_in_order (route1 route2 : Route) :
  (headerCount route1 <> headerCount route2 ->
     (higherPriority route1 route2 = true <-> (headerCount route2 < headerCount route1)%nat))
  /\ (headerCount route1 = headerCount route2 ->
      queryParamCount route1 <> queryParamCount route2 ->
     (higherPriority route1 route2 = true
      <-> (queryParamCount route2 < queryParamCount route1)%nat))
  /\ (headerCount route1 = headerCount route2 ->
      queryParamCount route1 = queryParamCount route2 ->
      created route1 <> created route2 ->
     (higherPriority route1 route2 = true <-> created route1 < created route2))
  /\ (headerCount route1 = headerCount route2 ->
      queryParamCount route1 = queryParamCount route2 ->
      created route1 = created route2 ->
     (higherPriority route1 route2 = true
      <-> String.ltb (resourceKey route1) (resourceKey route2) = true)).
Proof.
  repeat split; order_cases.
Qed.

Lemma higherPriority_criteria_in_order_witness :
  higherPriority (Fixtures.route "a" "x" 100 1 0) (Fixtures.route "a" "y" 100 1 0) = true
  /\ higherPriority (Fixtures.route "a" "y" 100 1 0) (Fixtures.route "a" "x" 50 1 0) = false
  /\ higherPriority (Fixtures.route "b" "z" 100 1 2) (Fixtures.route "a" "x" 50 1 0) = true
  /\ higherPriority (Fixtures.route "b" "z" 100 2 0) (Fixtures.route "a" "x" 50 1 5) = true.
Proof.
  split; [|split; [|split]].
  - apply (proj2 (proj2 (proj2 (higherPriority_criteria_in_order
                                  (Fixtures.route "a" "x" 100 1 0)
                                  (Fixtures.route "a" "y" 100 1 0)))));
      reflexivity.
  - apply not_true_is_false. intros H.
    apply (proj1 (proj2 (proj2 (higherPriority_criteria_in_order
                                  (Fixtures.route "a" "y" 100 1 0)
                                  (Fixtures.route "a" "x" 50 1 0))))) in H;
      [vm_compute in H; discriminate H | reflexivity | reflexivity | discriminate].
  - apply (proj1 (proj2 (higherPriority_criteria_in_order
                           (Fixtures.route "b" "z" 100 1 2)
                           (Fixtures.route "a" "x" 50 1 0))));
      [reflexivity | discriminate | vm_compute; lia].
  - apply (proj1 (higherPriority_criteria_in_order
                    (Fixtures.route "b" "z" 100 2 0)
                    (Fixtures.route "a" "x" 50 1 5)));
      [discriminate | vm_compute; lia].
Defined.

(** C3: on a list of routes with pairwise distinct resource keys, of any two
    routes at different positions exactly one has the higher priority;
    [higherPriority] is irreflexive and transitive; and [sortRoutes] returns
    a permutation of the list in which no route has a higher priority than
    one before it and in which the routes tied with any given route stand in
    their original relative order. *)
Theorem sortRoutes_strict_total_order_and_stable (routes : list Route) :
  NoDup (List.map resourceKey routes) ->
  (forall i j r1 r2,
      routes !! i = Some r1 -> routes !! j = Some r2 -> i <> j ->
      (higherPriority r1 r2 = true /\ higherPriority r2 r1 = false)
      \/ (higherPriority r1 r2 = false /\ higherPriority r2 r1 = true))
  /\ (forall r, higherPriority r r = false)
  /\ (forall r1 r2 r3,
        higherPriority r1 r2 = true -> higherPriority r2 r3 = true ->
        higherPriority r1 r3 = true)
  /\ Permutation routes (sortRoutes routes)
  /\ sortedBy higherPriority (sortRoutes routes)
  /\ (forall r,
        List.filter (tied higherPriority r) (sortRoutes routes)
        = List.filter (tied higherPriority r) routes).
Proof.
  intros Hnodup. split; [|split; [|split; [|split; [|split]]]].
  - intros i j r1 r2 Hi Hj Hij.
    assert (Hk : resourceKey r1 <> resourceKey r2).
    { intros Heq. apply Hij.
      apply NoDup_ListNoDup in Hnodup.
      change (List.map resourceKey routes) with (resourceKey <$> routes) in Hnodup.
      apply (NoDup_lookup _ i j (resourceKey r1) Hnodup).
      - by rewrite list_lookup_fmap, Hi.
      - by rewrite list_lookup_fmap, Hj, Heq. }
    destruct (higherPriority_total r1 r2 Hk) as [H|H].
    + left. split; [done|by apply higherPriority_asym].
    + right. split; [by apply higherPriority_asym|done].
  - apply higherPriority_irrefl.
  - apply higherPriority_trans.
  - apply sortRoutes_perm.
  - apply sortRoutes_sorted.
  - intros r. apply sortRoutes_stable.
Qed.

Lemma sortRoutes_strict_total_order_and_stable_witness :
  Permutation
    [Fixtures.route "a" "y" 100 1 0; Fixtures.route "a" "x" 100 1 0;
     Fixtures.route "b" "z" 100 2 0]
    (sortRoutes
       [Fixtures.route "a" "y" 100 1 0; Fixtures.route "a" "x" 100 1 0;
        Fixtures.route "b" "z" 100 2 0]).
Proof.
  apply (sortRoutes_strict_total_order_and_stable
           [Fixtures.route "a" "y" 100 1 0; Fixtures.route "a" "x" 100 1 0;
            Fixtures.route "b" "z" 100 2 0]).
  vm_compute. repeat (constructor; [simpl; intuition discriminate|]). constructor.
Defined.

(** The sort on concrete routes: more header matches first, then the
    smaller resource key; two matches of one route keep their order. *)
Example sortRoutes_example :
  sortRoutes
    [Fixtures.route "a" "y" 100 1 0; Fixtures.route "a" "x" 100 1 0;
     Fixtures.route "b" "z" 100 2 0; Fixtures.route "a" "x" 100 1 0]
  = [Fixtures.route "b" "z" 100 2 0; Fixtures.route "a" "x" 100 1 0;
     Fixtures.route "a" "x" 100 1 0; Fixtures.route "a" "y" 100 1 0].
Proof. reflexivity. Qed.

End StateProps.

(** ** Sizes *)

Module SizeProps.

Import ClientSettings.

Lemma is_digit_val (c : ascii) : is_digit c = true -> 0 <= digit_val c <= 9.
Proof. unfold is_digit, digit_val. lia. Qed.

Lemma digits_value_bounds (ds : string) (acc : Z) :
  all_digits ds = true -> 0 <= acc ->
  acc * 10 ^ Z.of_nat (String.length ds) <= digits_value acc ds
  < (acc + 1) * 10 ^ Z.of_nat (String.length ds).
Proof.
  revert acc. induction ds as [|c ds IH]; intros acc Hd Hacc.
  - simpl. lia.
  - simpl in Hd. apply andb_true_iff in Hd as [Hc Hd].
    apply is_digit_val in Hc.
    cbn [digits_value String.length]. rewrite Nat2Z.inj_succ, Z.pow_succ_r by lia.
    specialize (IH (acc * 10 + digit_val c) Hd ltac:(lia)).
    assert (0 < 10 ^ Z.of_nat (String.length ds)) by (apply Z.pow_pos_nonneg; lia).
    nia.
Qed.

Lemma digits_value_small (ds : string) :
  all_digits ds = true -> (String.length ds <= 4)%nat ->
  0 <= digits_value 0 ds < 10000.
Proof.
  intros Hd Hl. pose proof (digits_value_bounds ds 0 Hd ltac:(lia)) as H.
  assert (10 ^ Z.of_nat (String.length ds) <= 10 ^ 4)
    by (apply Z.pow_le_mono_r; lia).
  lia.
Qed.

Lemma wrap64_small (z : Z) : - 2 ^ 63 <= z < 2 ^ 63 -> wrap64 z = z.
Proof. intros H. unfold wrap64. rewrite Z.mod_small; lia. Qed.

Lemma span_digits_spec (s ds rest : string) :
  span_digits s = (ds, rest) -> s = ds ++ rest /\ all_digits ds = true.
Proof.
  revert ds rest. induction s as [|c s IH]; simpl; intros ds rest H.
  - by simplify_eq.
  - destruct (is_digit c) eqn:Hc.
    + destruct (span_digits s) as [ds' rest'] eqn:Hs.
      simplify_eq. destruct (IH _ _ eq_refl) as [-> Hd].
      split; [done|]. simpl. by rewrite Hc.
    + by simplify_eq.
Qed.

Lemma span_digits_rest (s ds rest : string) :
  span_digits s = (ds, rest) ->
  rest = "" \/ exists c r, rest = String c r /\ is_digit c = false.
Proof.
  revert ds rest. induction s as [|c s IH]; simpl; intros ds rest H.
  - left. by simplify_eq.
  - destruct (is_digit c) eqn:Hc.
    + destruct (span_digits s) as [ds' rest'] eqn:Hs.
      simplify_eq. by apply (IH ds').
    + simplify_eq. right. by exists c, s.
Qed.

Lemma span_digits_app (ds u : string) :
  all_digits ds = true ->
  (u = "" \/ exists c r, u = String c r /\ is_digit c = false) ->
  span_digits (ds ++ u) = (ds, u).
Proof.
  intros Hd Hu. induction ds as [|c ds IH]; simpl.
  - destruct Hu as [->|(c & r & -> & Hc)]; simpl; [done|by rewrite Hc].
  - simpl in Hd. apply andb_true_iff in Hd as [Hc Hd].
    by rewrite Hc, (IH Hd).
Qed.

Lemma unit_not_digit (u : string) :
  u = "" \/ u = "k" \/ u = "m" \/ u = "g" ->
  u = "" \/ exists c r, u = String c r /\ is_digit c = false.
Proof. intros [-> | [-> | [-> | ->]]]; [by left|right; by eexists _, _..]. Qed.

Lemma unit_check (u : string) :
  ((u =? "")%string || is_unit u) = true <->
  u = "" \/ u = "k" \/ u = "m" \/ u = "g".
Proof.
  unfold is_unit. rewrite !orb_true_iff, !String.eqb_eq. tauto.
Qed.

(** The regular expression matches exactly the literals of the grammar,
    and its groups are the digits and the unit. *)
Lemma FindStringSubmatch_literal (s ds u : string) :
  literal s ds u -> FindStringSubmatch s = [s; ds; u].
Proof.
  intros (-> & Hd & Hl & Hu). unfold FindStringSubmatch.
  rewrite (span_digits_app _ _ Hd (unit_not_digit _ Hu)).
  rewrite (proj2 (unit_check u) Hu).
  destruct Hl as [H1 H4].
  apply Nat.leb_le in H1, H4. by rewrite H1, H4.
Qed.

Lemma FindStringSubmatch_cases (s : string) :
  (exists ds u, literal s ds u /\ FindStringSubmatch s = [s; ds; u])
  \/ (~ size_grammar s /\ FindStringSubmatch s = []).
Proof.
  unfold FindStringSubmatch.
  destruct (span_digits s) as [ds rest] eqn:Hs.
  destruct (span_digits_spec _ _ _ Hs) as [-> Hd].
  destruct ((1 <=? String.length ds)%nat && (String.length ds <=? 4)%nat
            && ((rest =? "")%string || is_unit rest)) eqn:Hc.
  - left. exists ds, rest. split; [|done].
    apply andb_true_iff in Hc as [Hc Hu]. apply andb_true_iff in Hc as [H1 H4].
    apply Nat.leb_le in H1, H4. apply unit_check in Hu. by repeat split.
  - right. split; [|done]. intros (ds' & u' & Hlit).
    assert (Hm := FindStringSubmatch_literal _ _ _ Hlit).
    unfold FindStringSubmatch in Hm. by rewrite Hs, Hc in Hm.
Qed.

Lemma FindStringSubmatch_no_match (s : string) :
  ~ size_grammar s -> FindStringSubmatch s = [].
Proof.
  intros Hn. destruct (FindStringSubmatch_cases s) as [(ds & u & Hl & _)|[_ H]]; [|done].
  destruct Hn. by exists ds, u.
Qed.

Lemma size_grammar_iff (s : string) :
  size_grammar s <-> FindStringSubmatch s <> [].
Proof.
  split.
  - intros (ds & u & Hl). by rewrite (FindStringSubmatch_literal _ _ _ Hl).
  - intros Hm. destruct (FindStringSubmatch_cases s) as [(ds & u & Hl & _)|[_ H]].
    + by exists ds, u.
    + by rewrite H in Hm.
Qed.

(** A digit is neither sign. *)
Lemma digit_not_sign (c : ascii) (r : string) (fn : string) :
  is_digit c = true ->
  ParseInt fn (String c r) =
  if all_digits (String c r) then
    if (int64_min <=? digits_value 0 (String c r))
       && (digits_value 0 (String c r) <=? int64_max)
    then inl (digits_value 0 (String c r))
    else inr (ErrRange fn (String c r))
  else inr (ErrSyntax fn (String c r)).
Proof.
  intros Hc. unfold ParseInt.
  destruct c as [[] [] [] [] [] [] [] []]; try discriminate Hc; reflexivity.
Qed.

Lemma ParseInt_digits (fn ds : string) :
  all_digits ds = true -> (1 <= String.length ds <= 4)%nat ->
  ParseInt fn ds = inl (digits_value 0 ds).
Proof.
  intros Hd [H1 H4]. pose proof (digits_value_small ds Hd H4) as Hv.
  destruct ds as [|c r]; [simpl in H1; lia|].
  assert (Hc : is_digit c = true) by (simpl in Hd; by apply andb_true_iff in Hd as [? _]).
  rewrite (digit_not_sign _ _ _ Hc), Hd.
  unfold int64_min, int64_max.
  destruct (Z.leb_spec (- 2 ^ 63) (digits_value 0 (String c r))); [|lia].
  destruct (Z.leb_spec (digits_value 0 (String c r)) (2 ^ 63 - 1)); [done|lia].
Qed.

Lemma multiplier_unit (u : string) :
  u = "" \/ u = "k" \/ u = "m" \/ u = "g" ->
  multiplier (if (ToLower u =? "")%string then "b" else ToLower u) = unit_bytes u
  /\ 1 <= unit_bytes u <= 2 ^ 30.
Proof. intros [-> | [-> | [-> | ->]]]; vm_compute; split; try done; by split. Qed.

Lemma literal_nonempty (s ds u : string) : literal s ds u -> s <> "".
Proof.
  intros (-> & _ & [H1 _] & _) H. destruct ds; [simpl in H1; lia|done].
Qed.

Lemma literal_bytes_bounds (s ds u : string) :
  literal s ds u -> 0 <= size_bytes ds u < 2 ^ 63.
Proof.
  intros (_ & Hd & [_ H4] & Hu). unfold size_bytes.
  pose proof (digits_value_small ds Hd H4).
  destruct (multiplier_unit u Hu) as [_ ?]. nia.
Qed.

(** On a literal of the grammar [parseSizeToBytes] returns its byte count. *)
Lemma parseSizeToBytes_literal (s ds u : string) :
  literal s ds u -> parseSizeToBytes s = inl (size_bytes ds u).
Proof.
  intros Hl. pose proof (literal_bytes_bounds _ _ _ Hl) as Hb.
  unfold parseSizeToBytes. rewrite (FindStringSubmatch_literal _ _ _ Hl).
  destruct Hl as (_ & Hd & Hlen & Hu).
  rewrite (ParseInt_digits _ _ Hd Hlen).
  destruct (multiplier_unit u Hu) as [-> _].
  fold (size_bytes ds u). rewrite wrap64_small; [done|lia].
Qed.

(** On anything else it returns the error of the missing submatches. *)
Lemma parseSizeToBytes_malformed (s : string) :
  ~ size_grammar s -> parseSizeToBytes s = inr (ErrNoSubmatches s).
Proof.
  intros H. unfold parseSizeToBytes. by rewrite (FindStringSubmatch_no_match _ H).
Qed.

Lemma string_eqb_false (a b : string) : a <> b -> (a =? b)%string = false.
Proof. by rewrite String.eqb_neq. Qed.

Lemma getMaxSize_literals (s1 ds1 u1 s2 ds2 u2 : string) :
  literal s1 ds1 u1 -> literal s2 ds2 u2 ->
  getMaxSize s1 s2 = Ok (if size_bytes ds1 u1 >? size_bytes ds2 u2 then s1 else s2).
Proof.
  intros H1 H2. unfold getMaxSize.
  rewrite (string_eqb_false _ _ (literal_nonempty _ _ _ H1)).
  rewrite (string_eqb_false _ _ (literal_nonempty _ _ _ H2)).
  rewrite (parseSizeToBytes_literal _ _ _ H1), (parseSizeToBytes_literal _ _ _ H2).
  simpl. by destruct (size_bytes ds1 u1 >? size_bytes ds2 u2).
Qed.

(** The size that parses to bytes: on two literals of the grammar
    [getMaxSize] returns one of them, and its byte count is the maximum of
    the two byte counts. *)
Theorem getMaxSize_returns_the_larger_literal (s1 ds1 u1 s2 ds2 u2 : string) :
  literal s1 ds1 u1 -> literal s2 ds2 u2 ->
  exists r,
    getMaxSize s1 s2 = Ok r
    /\ (r = s1 \/ r = s2)
    /\ parseSizeToBytes r = inl (Z.max (size_bytes ds1 u1) (size_bytes ds2 u2)).
Proof.
  intros H1 H2. rewrite (getMaxSize_literals _ _ _ _ _ _ H1 H2).
  destruct (Z.gtb_spec (size_bytes ds1 u1) (size_bytes ds2 u2)) as [Hgt|Hle];
    eexists; (split; [done|]).
  - split; [by left|].
    rewrite (parseSizeToBytes_literal _ _ _ H1). f_equal. lia.
  - split; [by right|].
    rewrite (parseSizeToBytes_literal _ _ _ H2). f_equal. lia.
Qed.

Lemma getMaxSize_returns_the_larger_literal_witness :
  exists r,
    getMaxSize "2g" "1024m" = Ok r
    /\ (r = "2g" \/ r = "1024m")
    /\ parseSizeToBytes r = inl (Z.max (size_bytes "2" "g") (size_bytes "1024" "m")).
Proof.
  apply (getMaxSize_returns_the_larger_literal "2g" "2" "g" "1024m" "1024" "m");
    (split; [reflexivity|]); (split; [reflexivity|]); (split; [simpl; lia|]); auto.
Defined.

(** The regular expression is case-sensitive: a literal with an upper-case
    unit is not of the grammar, and merging it panics. *)
Example getMaxSize_upper_case_unit :
  FindStringSubmatch "1K" = []
  /\ getMaxSize "1K" "1k" = Panic (PanicError (ErrNoSubmatches "1K")).
Proof. split; reflexivity. Qed.

(** The table of the merge on literals of the grammar. *)
Example getMaxSize_table :
  getMaxSize "1k" "1m" = Ok "1m"
  /\ getMaxSize "2g" "1024m" = Ok "2g"
  /\ getMaxSize "1024" "1k" = Ok "1k"
  /\ getMaxSize "1k" "1024" = Ok "1024"
  /\ getMaxSize "" "5k" = Ok "5k"
  /\ getMaxSize "10" "1k" = Ok "1k"
  /\ getMaxSize "9999" "1k" = Ok "9999"
  /\ parseSizeToBytes "2g" = inl 2147483648
  /\ parseSizeToBytes "1024m" = inl 1073741824.
Proof. repeat split; vm_compute; reflexivity. Qed.


(** C1: the [getMaxSize] that compares unit letters does not return the
    literal with the larger byte count: a number of bytes loses against any
    unit, a number of k against any number of m, two numbers of bytes are
    compared by their last digit, and two equal one-digit literals panic.
    All literals below are literals of the grammar. *)
Theorem getMaxSize_by_unit_letter_is_not_the_maximum :
  (literal "9999" "9999" "" /\ literal "1k" "1" "k"
   /\ ClientSettingsUnits.getMaxSize "9999" (Some "1k") = Ok "1k"
   /\ size_bytes "1" "k" < size_bytes "9999" "")
  /\ (literal "1025k" "1025" "k" /\ literal "1m" "1" "m"
      /\ ClientSettingsUnits.getMaxSize "1025k" (Some "1m") = Ok "1m"
      /\ size_bytes "1" "m" < size_bytes "1025" "k")
  /\ (literal "19" "19" "" /\ literal "25" "25" ""
      /\ ClientSettingsUnits.getMaxSize "19" (Some "25") = Ok "19"
      /\ size_bytes "19" "" < size_bytes "25" "")
  /\ (literal "5" "5" ""
      /\ ClientSettingsUnits.getMaxSize "5" (Some "5")
         = Panic (PanicError (ErrSyntax "Atoi" ""))).
Proof.
  unfold literal. repeat split; simpl; auto; try lia.
Qed.




End SizeProps.

(** ** The client settings generator *)

Module ClientSettingsProps.

Import API ClientSettingsUnits CompositeProps.

(** *** The merge loop *)

Lemma getMaxSize_empty (s2 : option API.Size) :
  s2 = None \/ s2 = Some "" -> getMaxSize "" s2 = Ok "".
Proof. by intros [-> | ->]. Qed.

Lemma getMaxSize_first (s : API.Size) : getMaxSize "" (Some s) = Ok s.
Proof. reflexivity. Qed.

Lemma mergeStep_no_size (pol : Policy) :
  bodyMaxSize pol = None \/ bodyMaxSize pol = Some "" ->
  mergeStep (Ok "") pol = Ok "".
Proof.
  unfold mergeStep, bodyMaxSize. rewrite bind_Ok.
  destruct (asClientSettingsPolicy pol) as [csp|]; [|done].
  destruct (Body (Spec csp)) as [body|]; [|done].
  apply getMaxSize_empty.
Qed.

Lemma merge_no_size (pols : list Policy) :
  noBodyMaxSize pols -> foldl mergeStep (Ok "") pols = Ok "".
Proof.
  induction 1 as [|pol pols Hpol _ IH]; cbn [foldl]; [done|].
  by rewrite (mergeStep_no_size _ Hpol).
Qed.

Lemma maxBodySizeOf_no_size (rule : Dataplane.PathRule) :
  Forall (fun m => noBodyMaxSize (Dataplane.Policies m)) (Dataplane.MatchRules rule) ->
  maxBodySizeOf rule = Ok "".
Proof.
  unfold maxBodySizeOf.
  induction 1 as [|m ms Hm _ IH]; cbn [foldl]; [done|].
  by rewrite (merge_no_size _ Hm).
Qed.

Lemma mergeStep_skip (s : API.Size) (pol : Policy) :
  bodyMaxSize pol = None -> mergeStep (Ok s) pol = Ok s.
Proof.
  unfold mergeStep, bodyMaxSize. rewrite bind_Ok.
  destruct (asClientSettingsPolicy pol) as [csp|]; [|done].
  destruct (Body (Spec csp)) as [body|]; [|done].
  by intros ->.
Qed.

Lemma mergeStep_first (s : API.Size) (pol : Policy) :
  bodyMaxSize pol = Some s -> mergeStep (Ok "") pol = Ok s.
Proof.
  unfold mergeStep, bodyMaxSize. rewrite bind_Ok.
  destruct (asClientSettingsPolicy pol) as [csp|]; [|done].
  destruct (Body (Spec csp)) as [body|]; [|done].
  by intros ->.
Qed.

Lemma merge_skip (s : API.Size) (pols : list Policy) :
  Forall (fun pol => bodyMaxSize pol = None) pols ->
  foldl mergeStep (Ok s) pols = Ok s.
Proof.
  induction 1 as [|pol pols Hpol _ IH]; cbn [foldl]; [done|].
  by rewrite (mergeStep_skip _ _ Hpol).
Qed.

(** The nested loops visit the attached policies in order. *)
Lemma maxBodySizeOf_flat (rule : Dataplane.PathRule) :
  maxBodySizeOf rule = foldl mergeStep (Ok "") (attachedPolicies rule).
Proof.
  unfold maxBodySizeOf, attachedPolicies.
  generalize (Ok "" : Res API.Size).
  induction (Dataplane.MatchRules rule) as [|m ms IH]; intros acc; simpl; [done|].
  by rewrite foldl_app, IH.
Qed.

(** A single policy that contributes a size makes it the merged maximum. *)
Lemma maxBodySizeOf_single (rule : Dataplane.PathRule) pre pol post (s : API.Size) :
  attachedPolicies rule = (pre ++ pol :: post)%list ->
  noBodyMaxSize pre -> bodyMaxSize pol = Some s ->
  Forall (fun pol => bodyMaxSize pol = None) post ->
  maxBodySizeOf rule = Ok s.
Proof.
  intros Hrule Hpre Hpol Hpost.
  rewrite maxBodySizeOf_flat, Hrule, foldl_app, (merge_no_size _ Hpre).
  cbn [foldl]. by rewrite (mergeStep_first _ _ Hpol), (merge_skip _ _ Hpost).
Qed.

Lemma maxBodySizeOfPolicies_no_size (pols : list Policy) :
  noBodyMaxSize pols -> maxBodySizeOfPolicies pols = Ok "".
Proof. apply merge_no_size. Qed.

(** *** The entry points on policies of other kinds *)

Lemma serverLoop_skips (tmpl : ClientSettingsPolicySpec -> string)
    (pols : list Policy) (results : slice Policies.ServerFile) :
  noClientSettings pols ->
  foldl (fun results pol =>
           match pol with
           | IsClientSettingsPolicy csp =>
               append results
                 [{| Policies.ServerFileName :=
                       Kind csp ++ "_" ++ Namespace csp ++ "_" ++ Name csp ++ ".conf";
                     Policies.ServerFileContent := tmpl (Spec csp) |}]
           | OtherPolicy _ _ _ => results
           end) results pols = results.
Proof.
  induction 1 as [|pol pols Hpol _ IH]; simpl; [done|].
  by destruct pol.
Qed.

Lemma matchLoop_skips (tmpl : ClientSettingsPolicySpec -> string)
    (pols : list Policy) (results : slice Policies.LocationFile) :
  noClientSettings pols ->
  foldl (fun results pol =>
           match pol with
           | IsClientSettingsPolicy csp =>
               let fileContents := tmpl (Spec csp) in
               append results
                 [{| Policies.Name :=
                       Kind csp ++ "_" ++ Namespace csp ++ "_" ++ Name csp ++ "_int.conf";
                     Policies.Type_ := Policies.Internal;
                     Policies.Content := fileContents |};
                  {| Policies.Name :=
                       Kind csp ++ "_" ++ Namespace csp ++ "_" ++ Name csp ++ "_ext.conf";
                     Policies.Type_ := Policies.External;
                     Policies.Content := fileContents |}]
           | OtherPolicy _ _ _ => results
           end) results pols = results.
Proof.
  induction 1 as [|pol pols Hpol _ IH]; simpl; [done|].
  by destruct pol.
Qed.

Lemma noClientSettings_noBodyMaxSize (pols : list Policy) :
  noClientSettings pols -> noBodyMaxSize pols.
Proof.
  unfold noClientSettings, noBodyMaxSize. apply List.Forall_impl.
  intros pol H. left. unfold bodyMaxSize. by rewrite H.
Qed.

(** *** The redirect file of a path rule *)

Lemma GenerateForPathRule_cases (tmplExternalRedirect : Size -> string)
    (rule : Dataplane.PathRule) :
  GenerateForPathRule tmplExternalRedirect rule =
  match maxBodySizeOf rule with
  | Ok s =>
      if (s =? "")%string then Ok nil_slice
      else Ok (mk_slice
                 [{| Policies.Name :=
                       redirectFileName (Dataplane.PathType_ rule) (Dataplane.Path rule);
                     Policies.Type_ := Policies.ExternalRedirect;
                     Policies.Content := tmplExternalRedirect s |}])
  | Panic p => Panic p
  end.
Proof. unfold GenerateForPathRule. by destruct (maxBodySizeOf rule). Qed.

(** Whenever the merge loop returns, the path-rule entry point returns no
    file for an empty merged maximum and exactly one file, of type
    [ExternalRedirect] and rendered from that size, for a non-empty one. The
    loop does return when no attached policy contributes a maximum body size
    and when a single one does. The location entry point over policy lists
    does the same on a location that is not external. *)
Lemma redirect_file_when_merge_returns
    (tmpl : ClientSettingsPolicySpec -> string)
    (tmplExternalRedirect : Size -> string)
    (ExternalLocationType : HTTP.LocationType) :
  (forall rule,
      Forall (fun m => noBodyMaxSize (Dataplane.Policies m)) (Dataplane.MatchRules rule) ->
      GenerateForPathRule tmplExternalRedirect rule = Ok nil_slice)
  /\ (forall rule,
      maxBodySizeOf rule = Ok "" ->
      exists fs, GenerateForPathRule tmplExternalRedirect rule = Ok fs
                 /\ elems fs = []
                 /\ elems (Policies.ForExternalRedirectLocation fs) = [])
  /\ (forall rule s,
      maxBodySizeOf rule = Ok s -> s <> "" ->
      exists f, GenerateForPathRule tmplExternalRedirect rule = Ok (mk_slice [f])
                /\ Policies.Type_ f = Policies.ExternalRedirect
                /\ Policies.Content f = tmplExternalRedirect s
                /\ elems (Policies.ForExternalRedirectLocation (mk_slice [f])) = [f])
  /\ (forall rule pre pol post s,
      attachedPolicies rule = (pre ++ pol :: post)%list ->
      noBodyMaxSize pre -> bodyMaxSize pol = Some s -> s <> "" ->
      Forall (fun pol => bodyMaxSize pol = None) post ->
      GenerateForPathRule tmplExternalRedirect rule
      = Ok (mk_slice
              [{| Policies.Name :=
                    redirectFileName (Dataplane.PathType_ rule) (Dataplane.Path rule);
                  Policies.Type_ := Policies.ExternalRedirect;
                  Policies.Content := tmplExternalRedirect s |}]))
  /\ (forall pols location,
      HTTP.Type_ location <> ExternalLocationType ->
      (maxBodySizeOfPolicies pols = Ok "" ->
       exists r, GenerateForLocation tmpl tmplExternalRedirect ExternalLocationType
                   pols location = Ok r
                 /\ elems (PoliciesKV.Files r) = [])
      /\ (forall s, maxBodySizeOfPolicies pols = Ok s -> s <> "" ->
          exists r f, GenerateForLocation tmpl tmplExternalRedirect ExternalLocationType
                        pols location = Ok r
                      /\ elems (PoliciesKV.Files r) = [f]
                      /\ PoliciesKV.Content f = tmplExternalRedirect s)).
Proof.
  split; [|split; [|split; [|split]]].
  - intros rule H. by rewrite GenerateForPathRule_cases, (maxBodySizeOf_no_size _ H).
  - intros rule H. exists nil_slice. by rewrite GenerateForPathRule_cases, H.
  - intros rule s H Hs. eexists.
    rewrite GenerateForPathRule_cases, H, (SizeProps.string_eqb_false _ _ Hs).
    repeat split.
  - intros rule pre pol post s Hrule Hpre Hpol Hs Hpost.
    rewrite GenerateForPathRule_cases.
    rewrite (maxBodySizeOf_single _ _ _ _ _ Hrule Hpre Hpol Hpost).
    by rewrite (SizeProps.string_eqb_false _ _ Hs).
  - intros pols location Hloc. unfold GenerateForLocation.
    rewrite (SizeProps.string_eqb_false _ _ Hloc). split.
    + intros ->. by eexists.
    + intros s -> Hs. rewrite bind_Ok, (SizeProps.string_eqb_false _ _ Hs).
      by eexists _, _.
Qed.

Example redirect_file_when_merge_returns_example :
  GenerateForPathRule Fixtures.tmplExternalRedirect Fixtures.emptyPathRule = Ok nil_slice
  /\ exists f,
      GenerateForPathRule Fixtures.tmplExternalRedirect Fixtures.pathRule = Ok (mk_slice [f])
      /\ Policies.Type_ f = Policies.ExternalRedirect
      /\ Policies.Content f = Fixtures.tmplExternalRedirect "2m"
      /\ elems (Policies.ForExternalRedirectLocation (mk_slice [f])) = [f].
Proof.
  destruct (redirect_file_when_merge_returns
              Fixtures.tmpl Fixtures.tmplExternalRedirect "external")
    as (Hnone & _ & Hone & _ & _).
  split.
  - apply Hnone. repeat constructor.
  - apply Hone; [reflexivity | discriminate].
Defined.

(** The merge itself can panic on literals of the grammar: two policies
    that both set the size "5" make the path-rule entry point panic. *)
Example GenerateForPathRule_panics :
  GenerateForPathRule Fixtures.tmplExternalRedirect
    {| Dataplane.Path := "/";
       Dataplane.PathType_ := "prefix";
       Dataplane.MatchRules :=
         [{| Dataplane.Policies := [Fixtures.policyWithMaxSize "csp1" (Some "5");
                                    Fixtures.policyWithMaxSize "csp2" (Some "5")] |}] |}
  = Panic (PanicError (ErrSyntax "Atoi" "")).
Proof. reflexivity. Qed.

(** *** No policy of the generator's kind *)

(** Counterexample to C8: with no client settings policy attached, the
    path-rule entry point returns the nil list where the server entry point
    returns a non-nil list without elements, which the composite over this
    one generator turns into the nil list. *)
Lemma zero_policies_nil_and_empty_counterexample :
  GenerateForPathRule Fixtures.tmplExternalRedirect Fixtures.emptyPathRule = Ok nil_slice
  /\ GenerateForServer Fixtures.tmpl
       {| Dataplane.ServerPolicies := [Fixtures.otherPolicy] |} = Ok (mk_slice [])
  /\ Policies.Composite.GenerateForServer
       (Policies.NewCompositeGenerator [Fixtures.clientSettings])
       {| Dataplane.ServerPolicies := [Fixtures.otherPolicy] |} = Ok nil_slice
  /\ (nil_slice : slice Policies.LocationFile) <> mk_slice []
  /\ (nil_slice : slice Policies.ServerFile) <> mk_slice [].
Proof. repeat split; discriminate. Qed.

(** C8: with no client settings policy attached to the scope, the server
    and match-rule entry points return a non-nil list without elements and
    the path-rule entry point returns the nil list; none of them panics. *)
Theorem zero_policies_give_no_file
    (tmpl : ClientSettingsPolicySpec -> string)
    (tmplExternalRedirect : Size -> string) :
  (forall server,
      noClientSettings (Dataplane.ServerPolicies server) ->
      GenerateForServer tmpl server = Ok (mk_slice []))
  /\ (forall rule,
      noClientSettings (Dataplane.Policies rule) ->
      GenerateForMatchRule tmpl rule = Ok (mk_slice []))
  /\ (forall rule,
      Forall (fun m => noClientSettings (Dataplane.Policies m)) (Dataplane.MatchRules rule) ->
      GenerateForPathRule tmplExternalRedirect rule = Ok nil_slice
      /\ len (nil_slice : slice Policies.LocationFile) = 0%nat).
Proof.
  split; [|split].
  - intros server H. unfold GenerateForServer. by rewrite (serverLoop_skips _ _ _ H).
  - intros rule H. unfold GenerateForMatchRule. by rewrite (matchLoop_skips _ _ _ H).
  - intros rule H. split; [|done].
    rewrite GenerateForPathRule_cases, maxBodySizeOf_no_size; [done|].
    eapply List.Forall_impl; [|exact H].
    intros m. apply noClientSettings_noBodyMaxSize.
Qed.

Lemma zero_policies_give_no_file_witness :
  GenerateForServer Fixtures.tmpl {| Dataplane.ServerPolicies := [] |} = Ok (mk_slice [])
  /\ GenerateForMatchRule Fixtures.tmpl
       {| Dataplane.Policies := [Fixtures.otherPolicy] |} = Ok (mk_slice [])
  /\ GenerateForPathRule Fixtures.tmplExternalRedirect Fixtures.emptyPathRule = Ok nil_slice.
Proof.
  destruct (zero_policies_give_no_file Fixtures.tmpl Fixtures.tmplExternalRedirect)
    as (Hs & Hm & Hp).
  split; [|split].
  - apply Hs. constructor.
  - apply Hm. repeat constructor.
  - apply Hp. repeat constructor.
Defined.

(** *** File names *)


Lemma string_app_length (a b : string) :
  String.length (a ++ b) = (String.length a + String.length b)%nat.
Proof. induction a as [|c a IH]; simpl; [done|]. by rewrite IH. Qed.







Lemma removeSlashFromPath_no_slash (path : string) :
  occurs "/" (removeSlashFromPath path) = false.
Proof.
  induction path as [|c path IH]; cbn [removeSlashFromPath]; [done|].
  destruct (Ascii.eqb_spec c "/") as [->|Hc]; [done|].
  cbn [occurs]. rewrite IH, orb_false_r. apply Ascii.eqb_neq. congruence.
Qed.


Lemma matchLoop_names (tmpl : ClientSettingsPolicySpec -> string)
    (pols : list Policy) (acc : list Policies.LocationFile) :
  foldl (fun results pol =>
           match pol with
           | IsClientSettingsPolicy csp =>
               let fileContents := tmpl (Spec csp) in
               append results
                 [{| Policies.Name :=
                       Kind csp ++ "_" ++ Namespace csp ++ "_" ++ Name csp ++ "_int.conf";
                     Policies.Type_ := Policies.Internal;
                     Policies.Content := fileContents |};
                  {| Policies.Name :=
                       Kind csp ++ "_" ++ Namespace csp ++ "_" ++ Name csp ++ "_ext.conf";
                     Policies.Type_ := Policies.External;
                     Policies.Content := fileContents |}]
           | OtherPolicy _ _ _ => results
           end) (mk_slice acc) pols
  = mk_slice (acc ++ List.flat_map
                       (fun csp => [{| Policies.Name := internalFileName csp;
                                       Policies.Type_ := Policies.Internal;
                                       Policies.Content := tmpl (Spec csp) |};
                                    {| Policies.Name := externalFileName csp;
                                       Policies.Type_ := Policies.External;
                                       Policies.Content := tmpl (Spec csp) |}])
                       (clientSettingsOf pols)).
Proof.
  revert acc. induction pols as [|pol pols IH]; intros acc; simpl.
  - by rewrite app_nil_r.
  - destruct pol as [csp|]; simpl; [|apply IH].
    rewrite IH. by rewrite <- app_assoc.
Qed.

Example hasScopeSuffix_examples :
  hasScopeSuffix "ClientSettingsPolicy_default_csp1_int.conf" = true
  /\ hasScopeSuffix "ClientSettingsPolicy_default_csp1_server.conf" = true
  /\ hasScopeSuffix "ClientSettingsPolicy_default_csp1.conf" = false.
Proof. repeat split. Qed.




End ClientSettingsProps.

(** ** More on the route order *)

Module SortProps.

Import State StateProps.

Lemma filter_perm {A : Type} (P : A -> bool) (l1 l2 : list A) :
  Permutation l1 l2 -> Permutation (List.filter P l1) (List.filter P l2).
Proof.
  induction 1 as [|x l1 l2 _ IH|x y l|l1 l2 l3 _ IH1 _ IH2]; simpl.
  - done.
  - destruct (P x); [by constructor|done].
  - destruct (P x), (P y); try done. apply perm_swap.
  - by etrans.
Qed.

(** Two permutations of each other whose elements all equal [a] are equal. *)
Lemma perm_all_equal {A : Type} (a : A) (l1 l2 : list A) :
  Permutation l1 l2 -> (forall x, In x l1 -> x = a) -> l1 = l2.
Proof.
  induction 1 as [|x l1 l2 _ IH|x y l|l1 l2 l3 H12 IH1 _ IH2]; intros Hall.
  - done.
  - f_equal. apply IH. intros z Hz. apply Hall. by right.
  - rewrite (Hall x), (Hall y); [done|by left|by right; left].
  - rewrite IH1 by done. apply IH2. intros z Hz. apply Hall.
    eapply Permutation_in; [apply Permutation_sym, H12|done].
Qed.

(** On a list with pairwise distinct keys at most one route is tied with
    a given one. *)
Lemma tied_at_most_one (r : Route) (routes : list Route) :
  List.NoDup (List.map resourceKey routes) ->
  (length (List.filter (tied higherPriority r) routes) <= 1)%nat.
Proof.
  induction routes as [|x routes IH]; simpl; intros Hnd; [lia|].
  apply List.NoDup_cons_iff in Hnd as [Hx Hnd]. specialize (IH Hnd).
  destruct (tied higherPriority r x) eqn:Hrx; [|done]. simpl.
  destruct (List.filter (tied higherPriority r) routes) as [|y l] eqn:Hf; [done|].
  exfalso. apply Hx.
  assert (Hy : In y (List.filter (tied higherPriority r) routes)) by (rewrite Hf; by left).
  apply List.filter_In in Hy as [Hy Hry].
  apply tied_iff in Hrx as (_ & _ & _ & Hkx). apply tied_iff in Hry as (_ & _ & _ & Hky).
  rewrite <- Hkx, Hky. by apply List.in_map.
Qed.

Lemma tied_filter_perm (r : Route) (l1 l2 : list Route) :
  Permutation l1 l2 -> List.NoDup (List.map resourceKey l1) ->
  List.filter (tied higherPriority r) l1 = List.filter (tied higherPriority r) l2.
Proof.
  intros Hperm Hnd.
  pose proof (tied_at_most_one r l1 Hnd) as Hlen.
  pose proof (filter_perm (tied higherPriority r) _ _ Hperm) as Hf.
  destruct (List.filter (tied higherPriority r) l1) as [|x [|y l]]; simpl in Hlen; [..|lia].
  - by apply Permutation_nil in Hf.
  - by apply Permutation_length_1_inv in Hf.
Qed.

(** X2: the order in which the routes are listed does not matter when their
    resource keys are pairwise distinct: two lists that are permutations of
    each other are sorted into the same list. *)
Theorem sortRoutes_independent_of_input_order (routes1 routes2 : list Route) :
  Permutation routes1 routes2 ->
  List.NoDup (List.map resourceKey routes1) ->
  sortRoutes routes1 = sortRoutes routes2.
Proof.
  intros Hperm Hnd. apply sortRoutes_unique.
  - rewrite <- Hperm. apply sortRoutes_perm.
  - apply sortRoutes_sorted.
  - intros r. rewrite sortRoutes_stable. by apply tied_filter_perm.
Qed.

Lemma sortRoutes_independent_of_input_order_witness :
  sortRoutes [Fixtures.route "a" "y" 100 1 0; Fixtures.route "b" "z" 100 2 0;
              Fixtures.route "a" "x" 100 1 0]
  = sortRoutes [Fixtures.route "a" "x" 100 1 0; Fixtures.route "a" "y" 100 1 0;
                Fixtures.route "b" "z" 100 2 0].
Proof.
  apply sortRoutes_independent_of_input_order.
  - etrans; [apply perm_skip, perm_swap|apply perm_swap].
  - vm_compute. repeat (constructor; [simpl; intuition discriminate|]). constructor.
Defined.

(** X3: [sortRoutes] leaves a list alone in which no route has a higher
    priority than one before it, and so sorting twice is sorting once. *)
Theorem sortRoutes_fixes_sorted_lists (routes : list Route) :
  (sortedBy higherPriority routes -> sortRoutes routes = routes)
  /\ sortRoutes (sortRoutes routes) = sortRoutes routes.
Proof.
  assert (H : forall l, sortedBy higherPriority l -> sortRoutes l = l).
  { intros l Hl. symmetry. by apply sortRoutes_unique. }
  split; [apply H|]. apply H, sortRoutes_sorted.
Qed.

Lemma sortRoutes_fixes_sorted_lists_witness :
  sortRoutes [Fixtures.route "b" "z" 100 2 0; Fixtures.route "a" "x" 100 1 0;
              Fixtures.route "a" "x" 100 1 0]
  = [Fixtures.route "b" "z" 100 2 0; Fixtures.route "a" "x" 100 1 0;
     Fixtures.route "a" "x" 100 1 0].
Proof.
  apply (proj1 (sortRoutes_fixes_sorted_lists _)).
  repeat constructor.
Defined.

(** X4: no route of the list has a higher priority than the first route of
    the sorted list, and when the resource keys are pairwise distinct the
    first route has a higher priority than every route after it. *)
Theorem sortRoutes_head_wins (routes : list Route) (winner : Route) (rest : list Route) :
  sortRoutes routes = winner :: rest ->
  (forall r, In r routes -> higherPriority r winner = false)
  /\ (List.NoDup (List.map resourceKey routes) ->
      forall r, In r rest -> higherPriority winner r = true).
Proof.
  intros Hsort.
  pose proof (sortRoutes_sorted routes) as Hsorted. rewrite Hsort in Hsorted.
  pose proof (sortRoutes_perm routes) as Hperm. rewrite Hsort in Hperm.
  apply StronglySorted_inv in Hsorted as [_ Hrest].
  rewrite List.Forall_forall in Hrest. split.
  - intros r Hr. apply (Permutation_in _ Hperm) in Hr as [<-|Hr].
    + apply higherPriority_irrefl.
    + by apply Hrest.
  - intros Hnd r Hr.
    assert (Hnd' : List.NoDup (List.map resourceKey (winner :: rest))).
    { eapply Permutation_NoDup; [|exact Hnd]. by apply Permutation_map. }
    simpl in Hnd'. apply List.NoDup_cons_iff in Hnd' as [Hw _].
    destruct (higherPriority_total winner r) as [H|H]; [|done|].
    + intros Hk. apply Hw. rewrite Hk. by apply List.in_map.
    + by rewrite (Hrest r Hr) in H.
Qed.

Lemma sortRoutes_head_wins_witness :
  higherPriority (Fixtures.route "a" "y" 100 1 0) (Fixtures.route "b" "z" 100 2 0) = false.
Proof.
  apply (proj1 (sortRoutes_head_wins
                  [Fixtures.route "a" "y" 100 1 0; Fixtures.route "b" "z" 100 2 0]
                  (Fixtures.route "b" "z" 100 2 0) [Fixtures.route "a" "y" 100 1 0]
                  eq_refl)).
  by left.
Defined.

(** *** Sorted keys *)

Lemma ltb_tied_iff (a b : string) : tied String.ltb a b = true <-> a = b.
Proof.
  unfold tied. rewrite andb_true_iff, !negb_true_iff. split.
  - intros [H1 H2]. by apply ltb_tied_eq.
  - intros ->. by rewrite ltb_irrefl.
Qed.

(** Every sorted permutation of a list of strings is the list that
    [sort_Strings] returns. *)
Lemma sort_Strings_unique (keys sorted : list string) :
  Permutation keys sorted -> sortedBy String.ltb sorted ->
  sorted = sort_Strings keys.
Proof.
  intros Hperm Hsorted.
  apply (stable_sort_unique String.ltb ltb_asym).
  - rewrite <- Hperm. apply SliceStable_perm.
  - done.
  - apply SliceStable_sorted; [apply ltb_asym|apply ltb_negtrans].
  - intros a. apply (perm_all_equal a).
    + apply filter_perm. rewrite <- Hperm. apply SliceStable_perm.
    + intros x Hx. apply List.filter_In in Hx as [_ Hx]. symmetry. by apply ltb_tied_iff.
Qed.

Lemma StronglySorted_weaken {A : Type} (R S : A -> A -> Prop) (l : list A) :
  (forall a b, R a b -> S a b) -> StronglySorted R l -> StronglySorted S l.
Proof.
  intros HRS. induction 1 as [|x l _ IH Hx]; constructor; [done|].
  eapply List.Forall_impl; [|exact Hx]. intros b. apply HRS.
Qed.

(** X5: [getSortedKeys] returns a permutation of the keys in which no key
    is smaller than one before it, and the result does not depend on the
    order in which [Keys] lists the keys. *)
Theorem getSortedKeys_sorted_and_order_independent (m : mapper) :
  Permutation (Keys m) (getSortedKeys m)
  /\ StronglySorted (fun a b => String.leb a b = true) (getSortedKeys m)
  /\ (forall m', Permutation (Keys m) (Keys m') -> getSortedKeys m' = getSortedKeys m).
Proof.
  split; [apply SliceStable_perm|]. split.
  - assert (H : sortedBy String.ltb (getSortedKeys m))
      by (apply SliceStable_sorted; [apply ltb_asym|apply ltb_negtrans]).
    eapply StronglySorted_weaken; [|exact H]. simpl. intros a b Hba.
    unfold String.ltb in Hba. unfold String.leb.
    rewrite String.compare_antisym. by destruct (String.compare b a).
  - intros m' Hperm. symmetry. apply sort_Strings_unique.
    + rewrite <- Hperm. apply SliceStable_perm.
    + apply SliceStable_sorted; [apply ltb_asym|apply ltb_negtrans].
Qed.

Lemma getSortedKeys_sorted_and_order_independent_witness :
  getSortedKeys {| Keys := ["tea"; "coffee"; "cafe.example.com"] |}
  = getSortedKeys {| Keys := ["cafe.example.com"; "tea"; "coffee"] |}.
Proof.
  apply (proj2 (proj2 (getSortedKeys_sorted_and_order_independent
                         {| Keys := ["cafe.example.com"; "tea"; "coffee"] |}))).
  simpl. symmetry. etrans; [apply perm_skip, perm_swap|apply perm_swap].
Defined.

Example getSortedKeys_example :
  getSortedKeys {| Keys := ["tea"; "coffee"; "cafe.example.com"; "coffee"] |}
  = ["cafe.example.com"; "coffee"; "coffee"; "tea"].
Proof. reflexivity. Qed.

End SortProps.

(** ** More on the composite generators *)

Module CompositeMore.

Import CompositeProps.

Section FanOut.

Context {G A : Type} (call : G -> Res (slice A)).

Let step : Res (slice A) -> G -> Res (slice A) :=
  fun acc generator =>
    results ← acc; r ← call generator; Ok (append results (elems r)).

(** The loop started from some files returns those files followed by what
    the loop started from nothing returns. *)
Lemma fanOut_from (gens : list G) (acc : slice A) :
  foldl step (Ok acc) gens
  = (r ← foldl step (Ok nil_slice) gens; Ok (append acc (elems r))).
Proof.
  revert acc. induction gens as [|g gens IH]; intros acc; simpl; [done|].
  destruct (call g) as [o|p]; rewrite ?bind_Ok, ?bind_Panic.
  - rewrite (IH (append acc (elems o))), (IH (append nil_slice (elems o))).
    destruct (foldl step (Ok nil_slice) gens) as [r|p]; [|done].
    rewrite !bind_Ok. f_equal.
    by rewrite !append_append, !elems_append.
  - by rewrite (fanOut_panic call).
Qed.

Lemma fanOut_app (gens1 gens2 : list G) :
  foldl step (Ok nil_slice) (gens1 ++ gens2)
  = (r1 ← foldl step (Ok nil_slice) gens1;
     r2 ← foldl step (Ok nil_slice) gens2;
     Ok (append r1 (elems r2))).
Proof.
  rewrite foldl_app.
  destruct (foldl step (Ok nil_slice) gens1) as [r1|p]; rewrite ?bind_Ok, ?bind_Panic.
  - apply fanOut_from.
  - apply (fanOut_panic call).
Qed.

(** What the loop returns is the nil slice or holds a file. *)
Lemma fanOut_canonical (gens : list G) (r : slice A) :
  foldl step (Ok nil_slice) gens = Ok r -> append nil_slice (elems r) = r.
Proof.
  revert r. induction gens as [|g gens IH] using rev_ind; intros r.
  - simpl. by intros [= <-].
  - rewrite foldl_app. simpl.
    destruct (foldl step (Ok nil_slice) gens) as [r0|p]; [|done].
    unfold step. rewrite bind_Ok. destruct (call g) as [o|p]; [|done].
    rewrite bind_Ok. intros [= <-].
    rewrite elems_append, <- append_append. by rewrite (IH r0 eq_refl).
Qed.

Lemma fanOut_single (g : G) :
  foldl step (Ok nil_slice) [g] = (o ← call g; Ok (append nil_slice (elems o))).
Proof. reflexivity. Qed.

End FanOut.

Import Policies.

(** X6: the composite over two lists of generators put one after the other
    returns the files of the composite over the first list followed by those
    of the composite over the second, and panics with the first panic of
    either; this holds at the three entry points. *)
Theorem composite_of_appended_generators (gens1 gens2 : list Generator) :
  (forall server,
      Composite.GenerateForServer (NewCompositeGenerator (gens1 ++ gens2)) server
      = (r1 ← Composite.GenerateForServer (NewCompositeGenerator gens1) server;
         r2 ← Composite.GenerateForServer (NewCompositeGenerator gens2) server;
         Ok (append r1 (elems r2))))
  /\ (forall rule,
      Composite.GenerateForPathRule (NewCompositeGenerator (gens1 ++ gens2)) rule
      = (r1 ← Composite.GenerateForPathRule (NewCompositeGenerator gens1) rule;
         r2 ← Composite.GenerateForPathRule (NewCompositeGenerator gens2) rule;
         Ok (append r1 (elems r2))))
  /\ (forall rule,
      Composite.GenerateForMatchRule (NewCompositeGenerator (gens1 ++ gens2)) rule
      = (r1 ← Composite.GenerateForMatchRule (NewCompositeGenerator gens1) rule;
         r2 ← Composite.GenerateForMatchRule (NewCompositeGenerator gens2) rule;
         Ok (append r1 (elems r2)))).
Proof.
  repeat split; intros x.
  - apply (fanOut_app (fun g => GenerateForServer g x)).
  - apply (fanOut_app (fun g => GenerateForPathRule g x)).
  - apply (fanOut_app (fun g => GenerateForMatchRule g x)).
Qed.

Section Nested.

Context {X A : Type} (call : Generator -> X -> Res (slice A)).
Context (run : CompositeGenerator -> X -> Res (slice A)).
Hypothesis run_loop : forall g x,
  run g x = foldl (fun acc generator =>
                     results ← acc; r ← call generator x; Ok (append results (elems r)))
                  (Ok nil_slice) (generators g).
Hypothesis call_composite : forall g x, call (compositeGenerator g) x = run g x.

Lemma nested_flattens (cs : list CompositeGenerator) (x : X) :
  run (NewCompositeGenerator (List.map compositeGenerator cs)) x
  = run (NewCompositeGenerator (List.concat (List.map generators cs))) x.
Proof.
  rewrite !run_loop. simpl.
  induction cs as [|c cs IH]; [done|].
  change (List.map compositeGenerator (c :: cs))
    with (([compositeGenerator c] ++ List.map compositeGenerator cs)%list).
  change (List.concat (List.map generators (c :: cs)))
    with ((generators c ++ List.concat (List.map generators cs))%list).
  rewrite (fanOut_app (fun g => call g x)), (fanOut_app (fun g => call g x) (generators c)).
  rewrite IH. f_equal.
  rewrite (fanOut_single (fun g => call g x)), call_composite, run_loop.
  destruct (foldl _ (Ok nil_slice) (generators c)) as [r|p] eqn:Hr; [|done].
  rewrite bind_Ok. f_equal.
  by apply (fanOut_canonical (fun g => call g x)) in Hr.
Qed.

End Nested.

(** X7: a composite is a generator, and a composite of composites returns
    what the composite of all their members, in order, returns; this holds
    at the three entry points, panics included. *)
Theorem composite_of_composites_flattens (cs : list CompositeGenerator) :
  (forall server,
      Composite.GenerateForServer
        (NewCompositeGenerator (List.map compositeGenerator cs)) server
      = Composite.GenerateForServer
          (NewCompositeGenerator (List.concat (List.map generators cs))) server)
  /\ (forall rule,
      Composite.GenerateForPathRule
        (NewCompositeGenerator (List.map compositeGenerator cs)) rule
      = Composite.GenerateForPathRule
          (NewCompositeGenerator (List.concat (List.map generators cs))) rule)
  /\ (forall rule,
      Composite.GenerateForMatchRule
        (NewCompositeGenerator (List.map compositeGenerator cs)) rule
      = Composite.GenerateForMatchRule
          (NewCompositeGenerator (List.concat (List.map generators cs))) rule).
Proof.
  repeat split; intros x.
  - by apply (nested_flattens GenerateForServer Composite.GenerateForServer).
  - by apply (nested_flattens GenerateForPathRule Composite.GenerateForPathRule).
  - by apply (nested_flattens GenerateForMatchRule Composite.GenerateForMatchRule).
Qed.

(** X8: the composite never returns a non-nil list without files: when its
    members return, its result is the nil list exactly when every member
    returned no file, and otherwise a list that holds a file. In particular
    the composite over no generator returns the nil list. *)
Theorem composite_result_nil_or_nonempty (gens : list Generator) :
  (forall rule outs,
      Forall2 (fun g o => GenerateForMatchRule g rule = Ok o) gens outs ->
      exists r,
        Composite.GenerateForMatchRule (NewCompositeGenerator gens) rule = Ok r
        /\ (r = nil_slice <-> Forall (fun o => elems o = []) outs)
        /\ r <> mk_slice [])
  /\ (forall rule outs,
      Forall2 (fun g o => GenerateForPathRule g rule = Ok o) gens outs ->
      exists r,
        Composite.GenerateForPathRule (NewCompositeGenerator gens) rule = Ok r
        /\ (r = nil_slice <-> Forall (fun o => elems o = []) outs)
        /\ r <> mk_slice [])
  /\ (forall server outs,
      Forall2 (fun g o => GenerateForServer g server = Ok o) gens outs ->
      exists r,
        Composite.GenerateForServer (NewCompositeGenerator gens) server = Ok r
        /\ (r = nil_slice <-> Forall (fun o => elems o = []) outs)
        /\ r <> mk_slice []).
Proof.
  assert (Hnil : forall (B : Type) (outs : list (slice B)),
             (append nil_slice (List.concat (List.map elems outs)) = nil_slice
              <-> Forall (fun o => elems o = []) outs)
             /\ append nil_slice (List.concat (List.map elems outs)) <> mk_slice []).
  { intros B outs. induction outs as [|o outs [IH1 IH2]]; simpl.
    - split; [split; [constructor|done]|done].
    - destruct (elems o) as [|x xs] eqn:Ho; simpl.
      + split; [|done]. rewrite IH1. split; [by constructor|].
        intros H. by apply List.Forall_inv_tail in H.
      + split; [|done]. split; [done|].
        intros H. apply List.Forall_inv in H. by rewrite Ho in H. }
  repeat split; intros x outs H; eexists;
    (split; [unfold Composite.GenerateForMatchRule, Composite.GenerateForPathRule,
               Composite.GenerateForServer; simpl;
             apply (fanOut_append _ _ _ _ H)|apply Hnil]).
Qed.

Lemma composite_result_nil_or_nonempty_witness :
  exists r,
    Composite.GenerateForPathRule
      (NewCompositeGenerator [Fixtures.clientSettings; Fixtures.fixedFiles])
      Fixtures.emptyPathRule = Ok r
    /\ (r = nil_slice
        <-> Forall (fun o : GenerateForLocationResult => elems o = [])
                   [nil_slice; nil_slice])
    /\ r <> mk_slice [].
Proof.
  apply (proj1 (proj2 (composite_result_nil_or_nonempty
                         [Fixtures.clientSettings; Fixtures.fixedFiles]))
           Fixtures.emptyPathRule [nil_slice; nil_slice]).
  repeat constructor.
Defined.

End CompositeMore.

Module KVMore.

Import PoliciesKV CompositeProps KVProps.

(** X9: at each of its three entry points the composite whose results carry
    a key-value map returns the nil map whenever it returns, and it panics
    with an assignment to an entry of the nil map when a member returns a
    map with an entry after members that returned maps without entries. *)
Theorem compositeKV_nil_map_or_panic (gens : list Generator)
    (pols : list API.Policy) (location : HTTP.Location) (server : HTTP.Server) :
  (forall r,
      Composite.GenerateForLocation (NewCompositeGenerator gens) pols location = Ok r
      \/ Composite.GenerateForInternalLocation (NewCompositeGenerator gens) pols location = Ok r
      \/ Composite.GenerateForServer (NewCompositeGenerator gens) pols server = Ok r ->
      KeyVals r = None)
  /\ (forall pre g post outs o m,
      gens = (pre ++ g :: post)%list -> KeyVals o = Some m -> m <> ∅ ->
      (Forall2 (fun g o => GenerateForLocation g pols location = Ok o
                           /\ noEntries (KeyVals o)) pre outs ->
       GenerateForLocation g pols location = Ok o ->
       Composite.GenerateForLocation (NewCompositeGenerator gens) pols location
       = Panic PanicNilMap)
      /\ (Forall2 (fun g o => GenerateForInternalLocation g pols location = Ok o
                              /\ noEntries (KeyVals o)) pre outs ->
          GenerateForInternalLocation g pols location = Ok o ->
          Composite.GenerateForInternalLocation (NewCompositeGenerator gens) pols location
          = Panic PanicNilMap)
      /\ (Forall2 (fun g o => GenerateForServer g pols server = Ok o
                              /\ noEntries (KeyVals o)) pre outs ->
          GenerateForServer g pols server = Ok o ->
          Composite.GenerateForServer (NewCompositeGenerator gens) pols server
          = Panic PanicNilMap)).
Proof.
  split.
  - intros r [H|[H|H]]; revert H; apply loop_returns_nil_map; by intros a [= <-].
  - intros pre g post outs o m -> Ho Hm.
    repeat split; intros Hpre Hg; by eapply loop_entry_panics.
Qed.

Lemma compositeKV_nil_map_or_panic_witness :
  Composite.GenerateForServer
    (NewCompositeGenerator
       [ClientSettings.NewGenerator Fixtures.tmpl Fixtures.tmplExternalRedirect "external";
        Fixtures.constantKV (Fixtures.withKey "a" 1)])
    [] Fixtures.server = Panic PanicNilMap.
Proof.
  refine (proj2 (proj2 (proj2 (compositeKV_nil_map_or_panic
            [ClientSettings.NewGenerator Fixtures.tmpl Fixtures.tmplExternalRedirect "external";
             Fixtures.constantKV (Fixtures.withKey "a" 1)]
            [] Fixtures.location Fixtures.server)
          [ClientSettings.NewGenerator Fixtures.tmpl Fixtures.tmplExternalRedirect "external"]
          (Fixtures.constantKV (Fixtures.withKey "a" 1)) []
          [{| KeyVals := None; Files := mk_slice [] |}]
          (Fixtures.withKey "a" 1) {[ "a" := AnyInt 1 ]} eq_refl eq_refl _)) _ eq_refl).
  - apply insert_non_empty.
  - repeat constructor.
Defined.

End KVMore.

(** ** More on the location filters *)

Module FilterMore.

Import Policies PoliciesProps.

Lemma filter_filter_same {A : Type} (P : A -> bool) (l : list A) :
  List.filter P (List.filter P l) = List.filter P l.
Proof.
  induction l as [|x l IH]; simpl; [done|].
  destruct (P x) eqn:Hx; simpl; [|done]. by rewrite Hx, IH.
Qed.

Lemma filter_filter_disjoint {A : Type} (P Q : A -> bool) (l : list A) :
  (forall x, P x = true -> Q x = false) ->
  List.filter Q (List.filter P l) = [].
Proof.
  intros H. induction l as [|x l IH]; simpl; [done|].
  destruct (P x) eqn:Hx; simpl; [|done]. by rewrite (H x Hx).
Qed.

Lemma types_disjoint (t1 t2 : LocationType) (f : LocationFile) :
  t1 <> t2 -> (Type_ f =? t1) = true -> (Type_ f =? t2) = false.
Proof. intros Hne H. apply Z.eqb_eq in H. apply Z.eqb_neq. congruence. Qed.

(** X10: each filter returns a non-nil list, also on the nil list; applying
    a filter to its own result changes nothing; and applying a filter to the
    result of another one leaves no file. *)
Theorem filters_compose (locFile : GenerateForLocationResult) :
  (ForInternalLocation locFile <> nil_slice
   /\ ForExternalLocation locFile <> nil_slice
   /\ ForExternalRedirectLocation locFile <> nil_slice)
  /\ (ForInternalLocation (ForInternalLocation locFile) = ForInternalLocation locFile
      /\ ForExternalLocation (ForExternalLocation locFile) = ForExternalLocation locFile
      /\ ForExternalRedirectLocation (ForExternalRedirectLocation locFile)
         = ForExternalRedirectLocation locFile)
  /\ (ForExternalLocation (ForInternalLocation locFile) = mk_slice []
      /\ ForExternalRedirectLocation (ForInternalLocation locFile) = mk_slice []
      /\ ForInternalLocation (ForExternalLocation locFile) = mk_slice []
      /\ ForExternalRedirectLocation (ForExternalLocation locFile) = mk_slice []
      /\ ForInternalLocation (ForExternalRedirectLocation locFile) = mk_slice []
      /\ ForExternalLocation (ForExternalRedirectLocation locFile) = mk_slice []).
Proof.
  rewrite !ForInternalLocation_filter, !ForExternalLocation_filter,
    !ForExternalRedirectLocation_filter. simpl.
  split; [done|]. split.
  - by rewrite !filter_filter_same.
  - repeat split; f_equal; apply filter_filter_disjoint; intros f;
      by apply types_disjoint.
Qed.

(** X11: the three filters never return more files together than the
    result holds, and they return all of them exactly when every file
    carries one of the three types. *)
Theorem filters_count (locFile : GenerateForLocationResult) :
  (len (ForInternalLocation locFile) + len (ForExternalLocation locFile)
   + len (ForExternalRedirectLocation locFile) <= len locFile)%nat
  /\ (Forall (fun f => Type_ f = Internal \/ Type_ f = External
                       \/ Type_ f = ExternalRedirect) (elems locFile)
      <-> (len (ForInternalLocation locFile) + len (ForExternalLocation locFile)
           + len (ForExternalRedirectLocation locFile) = len locFile)%nat).
Proof.
  rewrite !ForInternalLocation_filter, !ForExternalLocation_filter,
    !ForExternalRedirectLocation_filter. unfold len. simpl.
  generalize (elems locFile). intros l.
  assert (Hle : forall (P : LocationFile -> bool) l',
             (length (List.filter P l') <= length l')%nat)
    by (intros P l'; apply List.filter_length_le).
  induction l as [|f l [IH1 IH2]]; simpl.
  - split; [lia|]. split; [done|constructor].
  - unfold Internal, External, ExternalRedirect in *.
    pose proof (Hle (fun f => Type_ f =? 0) l).
    pose proof (Hle (fun f => Type_ f =? 1) l).
    pose proof (Hle (fun f => Type_ f =? 2) l).
    destruct (Z.eqb_spec (Type_ f) 0), (Z.eqb_spec (Type_ f) 1),
      (Z.eqb_spec (Type_ f) 2); simpl; try lia;
      (split; [lia|]); rewrite List.Forall_cons_iff, IH2; split; try lia;
      try (intros [_ ?]; lia); intros ?; (split; [auto|lia]).
Qed.

End FilterMore.

(** ** More on sizes parsed to bytes *)

Module SizeMore.

Import API ClientSettings SizeProps CompositeProps.

(** X12: [parseSizeToBytes] returns a byte count exactly on the literals of
    the grammar, namely the number times the bytes of the unit, between 0
    and 9999 * 1024^3; on every other string it returns the error of the
    missing submatches, so the error of an unparsable number is never
    returned and the multiplication never wraps around. *)
Theorem parseSizeToBytes_cases (s : Size) :
  (exists ds u, literal s ds u
                /\ parseSizeToBytes s = inl (size_bytes ds u)
                /\ 0 <= size_bytes ds u <= 9999 * 2 ^ 30)
  \/ (~ size_grammar s /\ parseSizeToBytes s = inr (ErrNoSubmatches s)).
Proof.
  destruct (FindStringSubmatch_cases s) as [(ds & u & Hl & _)|[Hn _]].
  - left. exists ds, u. split; [done|]. split; [by apply parseSizeToBytes_literal|].
    destruct Hl as (_ & Hd & [_ H4] & Hu). unfold size_bytes.
    pose proof (digits_value_small ds Hd H4).
    destruct (multiplier_unit u Hu) as [_ ?]. nia.
  - right. split; [done|]. by apply parseSizeToBytes_malformed.
Qed.

Lemma grammar_dec (s : string) : size_grammar s \/ ~ size_grammar s.
Proof.
  destruct (FindStringSubmatch_cases s) as [(ds & u & Hl & _)|[Hn _]]; [left|by right].
  by exists ds, u.
Qed.

(** X13: [getMaxSize] returns exactly when one of the sizes is empty or both
    are literals of the grammar; otherwise it panics with the error of the
    first size, in argument order, that is not a literal. *)
Theorem getMaxSize_returns_iff (s1 s2 : Size) :
  ((exists r, getMaxSize s1 s2 = Ok r)
   <-> s1 = "" \/ s2 = "" \/ (size_grammar s1 /\ size_grammar s2))
  /\ (s1 <> "" -> s2 <> "" -> ~ size_grammar s1 ->
      getMaxSize s1 s2 = Panic (PanicError (ErrNoSubmatches s1)))
  /\ (s1 <> "" -> s2 <> "" -> size_grammar s1 -> ~ size_grammar s2 ->
      getMaxSize s1 s2 = Panic (PanicError (ErrNoSubmatches s2))).
Proof.
  assert (H1 : s1 <> "" -> s2 <> "" -> ~ size_grammar s1 ->
               getMaxSize s1 s2 = Panic (PanicError (ErrNoSubmatches s1))).
  { intros Hs1 Hs2 Hn. unfold getMaxSize.
    rewrite (string_eqb_false _ _ Hs1), (string_eqb_false _ _ Hs2).
    by rewrite (parseSizeToBytes_malformed _ Hn). }
  assert (H2 : s1 <> "" -> s2 <> "" -> size_grammar s1 -> ~ size_grammar s2 ->
               getMaxSize s1 s2 = Panic (PanicError (ErrNoSubmatches s2))).
  { intros Hs1 Hs2 (ds & u & Hl) Hn. unfold getMaxSize.
    rewrite (string_eqb_false _ _ Hs1), (string_eqb_false _ _ Hs2).
    by rewrite (parseSizeToBytes_literal _ _ _ Hl), (parseSizeToBytes_malformed _ Hn). }
  split; [|by split]. split.
  - intros [r Hr].
    destruct (String.eqb_spec s1 "") as [|Hs1]; [by left|].
    destruct (String.eqb_spec s2 "") as [|Hs2]; [by right; left|].
    right; right.
    destruct (grammar_dec s1) as [Hg1|Hn1]; [|by rewrite (H1 Hs1 Hs2 Hn1) in Hr].
    destruct (grammar_dec s2) as [Hg2|Hn2]; [done|by rewrite (H2 Hs1 Hs2 Hg1 Hn2) in Hr].
  - intros [->|[->|[(ds1 & u1 & Hl1) (ds2 & u2 & Hl2)]]].
    + by eexists.
    + unfold getMaxSize. destruct (s1 =? "")%string; by eexists.
    + rewrite (getMaxSize_literals _ _ _ _ _ _ Hl1 Hl2). by eexists.
Qed.

Lemma getMaxSize_returns_iff_witness :
  getMaxSize "1k" "12345" = Panic (PanicError (ErrNoSubmatches "12345")).
Proof.
  apply (proj2 (proj2 (getMaxSize_returns_iff "1k" "12345"))).
  - discriminate.
  - discriminate.
  - exists "1", "k". unfold literal. repeat split; simpl; auto; lia.
  - rewrite size_grammar_iff. intros H. by apply H.
Defined.

(** X14: on two literals of the grammar the order of the arguments does not
    change the byte count of the result; when the byte counts differ the
    result is the same literal in both orders, and when they are equal the
    result is the second argument. *)
Theorem getMaxSize_commutes_in_bytes (s1 ds1 u1 s2 ds2 u2 : string) :
  literal s1 ds1 u1 -> literal s2 ds2 u2 ->
  exists r r',
    getMaxSize s1 s2 = Ok r /\ getMaxSize s2 s1 = Ok r'
    /\ parseSizeToBytes r = parseSizeToBytes r'
    /\ (size_bytes ds1 u1 <> size_bytes ds2 u2 -> r = r')
    /\ (size_bytes ds1 u1 = size_bytes ds2 u2 -> r = s2 /\ r' = s1).
Proof.
  intros H1 H2.
  rewrite (getMaxSize_literals _ _ _ _ _ _ H1 H2), (getMaxSize_literals _ _ _ _ _ _ H2 H1).
  pose proof (parseSizeToBytes_literal _ _ _ H1) as P1.
  pose proof (parseSizeToBytes_literal _ _ _ H2) as P2.
  destruct (Z.gtb_spec (size_bytes ds1 u1) (size_bytes ds2 u2)),
           (Z.gtb_spec (size_bytes ds2 u2) (size_bytes ds1 u1));
    eexists _, _; (split; [done|]); (split; [done|]); rewrite ?P1, ?P2;
    repeat split; try done; try lia; f_equal; lia.
Qed.

Lemma getMaxSize_commutes_in_bytes_witness :
  exists r r',
    getMaxSize "1024" "1k" = Ok r /\ getMaxSize "1k" "1024" = Ok r'
    /\ parseSizeToBytes r = parseSizeToBytes r'
    /\ (size_bytes "1024" "" <> size_bytes "1" "k" -> r = r')
    /\ (size_bytes "1024" "" = size_bytes "1" "k" -> r = "1k" /\ r' = "1024").
Proof.
  apply (getMaxSize_commutes_in_bytes "1024" "1024" "" "1k" "1" "k");
    unfold literal; repeat split; simpl; auto; lia.
Defined.

(** *** The merge over the attached policies *)

Lemma sizeRank_literal (s ds u : string) :
  literal s ds u -> sizeRank s = size_bytes ds u /\ 0 <= sizeRank s.
Proof.
  intros Hl. unfold sizeRank.
  rewrite (string_eqb_false _ _ (literal_nonempty _ _ _ Hl)).
  rewrite (parseSizeToBytes_literal _ _ _ Hl).
  pose proof (literal_bytes_bounds _ _ _ Hl). lia.
Qed.

(** On empty sizes and literals [getMaxSize] returns the argument of the
    higher rank, the second one when the ranks are equal. *)
Lemma getMaxSize_rank (s1 s2 : Size) :
  emptyOrLiteral s1 -> emptyOrLiteral s2 ->
  exists r, getMaxSize s1 s2 = Ok r
            /\ emptyOrLiteral r
            /\ (r = s1 \/ r = s2)
            /\ sizeRank r = Z.max (sizeRank s1) (sizeRank s2).
Proof.
  intros [->|(ds1 & u1 & Hl1)] H2.
  - exists s2. repeat split; [done|by right|].
    destruct H2 as [->|(ds2 & u2 & Hl2)]; [done|].
    destruct (sizeRank_literal _ _ _ Hl2). change (sizeRank "") with (-1). lia.
  - destruct (sizeRank_literal _ _ _ Hl1) as [R1 ?].
    destruct H2 as [->|(ds2 & u2 & Hl2)].
    + exists s1. unfold getMaxSize.
      rewrite (string_eqb_false _ _ (literal_nonempty _ _ _ Hl1)). simpl.
      repeat split; [right; by exists ds1, u1|by left|].
      change (sizeRank "") with (-1). lia.
    + destruct (sizeRank_literal _ _ _ Hl2) as [R2 ?].
      rewrite (getMaxSize_literals _ _ _ _ _ _ Hl1 Hl2), R1, R2.
      destruct (Z.gtb_spec (size_bytes ds1 u1) (size_bytes ds2 u2));
        eexists; (split; [done|]).
      * repeat split; [right; by exists ds1, u1|by left|rewrite R1; lia].
      * repeat split; [right; by exists ds2, u2|by right|rewrite R2; lia].
Qed.

(** The merge loop visits the sizes that the policies contribute. *)
Lemma mergedMaxBodySize_sizes (pols : list Policy) (acc : Res Size) :
  foldl (fun acc pol =>
           maxBodySize ← acc;
           match asClientSettingsPolicy pol with
           | None => Ok maxBodySize
           | Some csp =>
               match Body (Spec csp) with
               | Some body =>
                   match MaxSize body with
                   | Some size => getMaxSize maxBodySize size
                   | None => Ok maxBodySize
                   end
               | None => Ok maxBodySize
               end
           end) acc pols
  = foldl (fun acc size => maxBodySize ← acc; getMaxSize maxBodySize size)
          acc (omap bodyMaxSize pols).
Proof.
  revert acc. induction pols as [|pol pols IH]; intros acc; [done|].
  cbn [foldl]. rewrite IH. unfold omap at 2. cbn [list_omap]. unfold bodyMaxSize at 2.
  destruct (asClientSettingsPolicy pol) as [csp|].
  - destruct (Body (Spec csp)) as [body|].
    + destruct (MaxSize body) as [size|]; [done|].
      f_equal. by destruct acc.
    + f_equal. by destruct acc.
  - f_equal. by destruct acc.
Qed.

Lemma merge_rank (sizes : list Size) (acc : Size) :
  emptyOrLiteral acc -> Forall emptyOrLiteral sizes ->
  exists r,
    foldl (fun acc size => maxBodySize ← acc; getMaxSize maxBodySize size) (Ok acc) sizes
    = Ok r
    /\ emptyOrLiteral r
    /\ (r = acc \/ In r sizes)
    /\ sizeRank acc <= sizeRank r
    /\ (forall s, In s sizes -> sizeRank s <= sizeRank r).
Proof.
  intros Hacc Hsizes. revert acc Hacc.
  induction Hsizes as [|s sizes Hs _ IH]; intros acc Hacc.
  - exists acc. repeat split; [done|by left|lia|by intros s []].
  - cbn [foldl]. rewrite bind_Ok.
    destruct (getMaxSize_rank acc s Hacc Hs) as (m & -> & Hm & Hin & Hrank).
    destruct (IH m Hm) as (r & -> & Hr & Hin' & Hle & Hall).
    exists r. split; [done|]. split; [done|]. split; [|split].
    + destruct Hin' as [->|?]; [|right; by right].
      destruct Hin as [->| ->]; [by left|right; by left].
    + lia.
    + intros s' [<-|Hs']; [lia|by apply Hall].
Qed.

Lemma sizeRank_nonneg_literal (s : string) :
  emptyOrLiteral s -> s <> "" ->
  exists b, parseSizeToBytes s = inl b /\ sizeRank s = b /\ 0 <= b.
Proof.
  intros [->|(ds & u & Hl)] Hs; [done|].
  destruct (sizeRank_literal _ _ _ Hl) as [R ?].
  exists (size_bytes ds u). rewrite (parseSizeToBytes_literal _ _ _ Hl). split; [done|lia].
Qed.

(** X15: on a location that is not external, when every size that the
    attached policies set is empty or a literal of the grammar, the location
    entry point returns without a map; it returns no file when no policy
    sets a non-empty size, and otherwise the one redirect file of the
    location, rendered from one of the sizes set whose byte count is the
    largest of all. *)
Theorem GenerateForLocation_merges_to_the_maximum
    (tmpl : ClientSettingsPolicySpec -> string)
    (tmplExternalRedirect : Size -> string)
    (ExternalLocationType : HTTP.LocationType)
    (pols : list Policy) (location : HTTP.Location) :
  HTTP.Type_ location <> ExternalLocationType ->
  Forall emptyOrLiteral (omap bodyMaxSize pols) ->
  (Forall (fun s => s = "") (omap bodyMaxSize pols)
   /\ GenerateForLocation tmpl tmplExternalRedirect ExternalLocationType pols location
      = Ok PoliciesKV.zeroResult)
  \/ (exists s b,
        In s (omap bodyMaxSize pols)
        /\ parseSizeToBytes s = inl b
        /\ (forall s', In s' (omap bodyMaxSize pols) -> s' <> "" ->
            exists b', parseSizeToBytes s' = inl b' /\ b' <= b)
        /\ GenerateForLocation tmpl tmplExternalRedirect ExternalLocationType pols location
           = Ok {| PoliciesKV.KeyVals := None;
                   PoliciesKV.Files :=
                     mk_slice
                       [{| PoliciesKV.Name :=
                             "ClientSettingsPolicy_" ++ HTTP.HTTPMatchKey location
                             ++ "_redirect.conf";
                           PoliciesKV.Content := tmplExternalRedirect s |}] |}).
Proof.
  intros Hloc Hsizes. unfold GenerateForLocation, mergedMaxBodySize.
  rewrite (string_eqb_false _ _ Hloc), mergedMaxBodySize_sizes.
  destruct (merge_rank _ "" (or_introl eq_refl) Hsizes)
    as (r & Hfold & Hr & Hin & _ & Hall).
  unfold Size in *. rewrite Hfold, bind_Ok.
  destruct (String.eqb_spec r "") as [->|Hne].
  - left. split; [|done]. apply List.Forall_forall. intros s Hs.
    destruct (String.eqb_spec s "") as [|Hs']; [done|].
    rewrite List.Forall_forall in Hsizes.
    destruct (sizeRank_nonneg_literal s (Hsizes s Hs) Hs') as (b & _ & Hb & ?).
    specialize (Hall s Hs). change (sizeRank "") with (-1) in Hall. lia.
  - right. destruct Hin as [->|Hin]; [done|].
    destruct (sizeRank_nonneg_literal r Hr Hne) as (b & Hp & Hb & _).
    exists r, b. split; [done|]. split; [done|]. split; [|done].
    intros s' Hs' Hne'. rewrite List.Forall_forall in Hsizes.
    destruct (sizeRank_nonneg_literal s' (Hsizes s' Hs') Hne') as (b' & Hp' & Hb' & _).
    exists b'. split; [done|]. specialize (Hall s' Hs'). lia.
Qed.

Lemma GenerateForLocation_merges_to_the_maximum_witness :
  (Forall (fun s => s = "") ["10m"; "1024k"]
   /\ GenerateForLocation Fixtures.tmpl Fixtures.tmplExternalRedirect "external"
        [Fixtures.policyWithMaxSize "csp1" (Some "10m"); Fixtures.otherPolicy;
         Fixtures.policyWithMaxSize "csp2" (Some "1024k")]
        {| HTTP.Type_ := "redirect"; HTTP.HTTPMatchKey := "1_0" |}
      = Ok PoliciesKV.zeroResult)
  \/ (exists s b,
        In s ["10m"; "1024k"]
        /\ parseSizeToBytes s = inl b
        /\ (forall s', In s' ["10m"; "1024k"] -> s' <> "" ->
            exists b', parseSizeToBytes s' = inl b' /\ b' <= b)
        /\ GenerateForLocation Fixtures.tmpl Fixtures.tmplExternalRedirect "external"
             [Fixtures.policyWithMaxSize "csp1" (Some "10m"); Fixtures.otherPolicy;
              Fixtures.policyWithMaxSize "csp2" (Some "1024k")]
             {| HTTP.Type_ := "redirect"; HTTP.HTTPMatchKey := "1_0" |}
           = Ok {| PoliciesKV.KeyVals := None;
                   PoliciesKV.Files :=
                     mk_slice
                       [{| PoliciesKV.Name := "ClientSettingsPolicy_" ++ "1_0" ++ "_redirect.conf";
                           PoliciesKV.Content := Fixtures.tmplExternalRedirect s |}] |}).
Proof.
  apply (GenerateForLocation_merges_to_the_maximum
           Fixtures.tmpl Fixtures.tmplExternalRedirect "external"
           [Fixtures.policyWithMaxSize "csp1" (Some "10m"); Fixtures.otherPolicy;
            Fixtures.policyWithMaxSize "csp2" (Some "1024k")]
           {| HTTP.Type_ := "redirect"; HTTP.HTTPMatchKey := "1_0" |}).
  - discriminate.
  - change (Forall emptyOrLiteral ["10m"; "1024k"]).
    constructor; [|constructor; [|constructor]].
    + right. exists "10", "m". unfold literal. repeat split; simpl; auto; lia.
    + right. exists "1024", "k". unfold literal. repeat split; simpl; auto; lia.
Defined.

(** *** One file per client settings policy *)

Lemma perPolicyLoop (suffix : string) (tmpl : ClientSettingsPolicySpec -> string)
    (pols : list Policy) (acc : list PoliciesKV.File) :
  foldl (fun files pol =>
           match asClientSettingsPolicy pol with
           | None => files
           | Some csp =>
               append files
                 [{| PoliciesKV.Name :=
                       "ClientSettingsPolicy_" ++ Namespace csp ++ "_" ++ Name csp ++ suffix;
                     PoliciesKV.Content := tmpl (Spec csp) |}]
           end) (mk_slice acc) pols
  = mk_slice (acc ++ List.map
                       (fun csp =>
                          {| PoliciesKV.Name :=
                               "ClientSettingsPolicy_" ++ Namespace csp ++ "_" ++ Name csp
                               ++ suffix;
                             PoliciesKV.Content := tmpl (Spec csp) |})
                       (clientSettingsOf pols)).
Proof.
  revert acc. induction pols as [|pol pols IH]; intros acc; simpl.
  - by rewrite app_nil_r.
  - destruct pol as [csp|]; simpl; [|apply IH].
    rewrite IH. by rewrite <- app_assoc.
Qed.

Lemma serverLoop (tmpl : ClientSettingsPolicySpec -> string)
    (pols : list Policy) (acc : list PoliciesKV.File) :
  foldl (fun files pol =>
           match asClientSettingsPolicy pol with
           | None => files
           | Some csp =>
               let content := tmpl (Spec csp) in
               if (String.length content =? 0)%nat then files
               else append files
                      [{| PoliciesKV.Name :=
                            "ClientSettingsPolicy_" ++ Namespace csp ++ "_" ++ Name csp
                            ++ "_server.conf";
                          PoliciesKV.Content := content |}]
           end) (mk_slice acc) pols
  = mk_slice (acc ++ List.map
                       (fun csp =>
                          {| PoliciesKV.Name :=
                               "ClientSettingsPolicy_" ++ Namespace csp ++ "_" ++ Name csp
                               ++ "_server.conf";
                             PoliciesKV.Content := tmpl (Spec csp) |})
                       (List.filter
                          (fun csp => negb (String.length (tmpl (Spec csp)) =? 0)%nat)
                          (clientSettingsOf pols))).
Proof.
  revert acc. induction pols as [|pol pols IH]; intros acc; simpl.
  - by rewrite app_nil_r.
  - destruct pol as [csp|]; simpl; [|apply IH].
    destruct (String.length (tmpl (Spec csp)) =? 0)%nat; simpl; [apply IH|].
    rewrite IH. by rewrite <- app_assoc.
Qed.

(** X16: the internal-location entry point and, on an external location,
    the location entry point return one file per attached client settings
    policy, in the order of the policies, named by namespace and name with
    the suffix int or ext; the server entry point returns the files with the
    suffix server of the policies whose rendered content is not empty. None
    of them panics, sets a map or returns the nil list, and policies of
    other kinds give no file. *)
Theorem one_file_per_client_settings_policy
    (tmpl : ClientSettingsPolicySpec -> string)
    (tmplExternalRedirect : Size -> string)
    (ExternalLocationType : HTTP.LocationType)
    (pols : list Policy) (location : HTTP.Location) (server : HTTP.Server) :
  GenerateForInternalLocation tmpl pols location
  = Ok {| PoliciesKV.KeyVals := None;
          PoliciesKV.Files :=
            mk_slice
              (List.map
                 (fun csp =>
                    {| PoliciesKV.Name :=
                         "ClientSettingsPolicy_" ++ Namespace csp ++ "_" ++ Name csp
                         ++ "_int.conf";
                       PoliciesKV.Content := tmpl (Spec csp) |})
                 (clientSettingsOf pols)) |}
  /\ (HTTP.Type_ location = ExternalLocationType ->
      GenerateForLocation tmpl tmplExternalRedirect ExternalLocationType pols location
      = Ok {| PoliciesKV.KeyVals := None;
              PoliciesKV.Files :=
                mk_slice
                  (List.map
                     (fun csp =>
                        {| PoliciesKV.Name :=
                             "ClientSettingsPolicy_" ++ Namespace csp ++ "_" ++ Name csp
                             ++ "_ext.conf";
                           PoliciesKV.Content := tmpl (Spec csp) |})
                     (clientSettingsOf pols)) |})
  /\ GenerateForServer tmpl pols server
     = Ok {| PoliciesKV.KeyVals := None;
             PoliciesKV.Files :=
               mk_slice
                 (List.map
                    (fun csp =>
                       {| PoliciesKV.Name :=
                            "ClientSettingsPolicy_" ++ Namespace csp ++ "_" ++ Name csp
                            ++ "_server.conf";
                          PoliciesKV.Content := tmpl (Spec csp) |})
                    (List.filter
                       (fun csp => negb (String.length (tmpl (Spec csp)) =? 0)%nat)
                       (clientSettingsOf pols))) |}.
Proof.
  split; [|split].
  - unfold GenerateForInternalLocation, make_slice.
    by rewrite (perPolicyLoop "_int.conf").
  - intros H. unfold GenerateForLocation, make_slice.
    by rewrite H, String.eqb_refl, (perPolicyLoop "_ext.conf").
  - unfold GenerateForServer, make_slice. by rewrite serverLoop.
Qed.

Lemma one_file_per_client_settings_policy_witness :
  GenerateForLocation Fixtures.tmpl Fixtures.tmplExternalRedirect "external"
    [Fixtures.otherPolicy; Fixtures.policyWithMaxSize "csp1" (Some "1m")] Fixtures.location
  = Ok {| PoliciesKV.KeyVals := None;
          PoliciesKV.Files :=
            mk_slice
              (List.map
                 (fun csp =>
                    {| PoliciesKV.Name :=
                         "ClientSettingsPolicy_" ++ Namespace csp ++ "_" ++ Name csp
                         ++ "_ext.conf";
                       PoliciesKV.Content := Fixtures.tmpl (Spec csp) |})
                 (clientSettingsOf
                    [Fixtures.otherPolicy; Fixtures.policyWithMaxSize "csp1" (Some "1m")])) |}.
Proof.
  apply (proj1 (proj2 (one_file_per_client_settings_policy
                         Fixtures.tmpl Fixtures.tmplExternalRedirect "external"
                         [Fixtures.otherPolicy; Fixtures.policyWithMaxSize "csp1" (Some "1m")]
                         Fixtures.location Fixtures.server))).
  reflexivity.
Defined.

End SizeMore.

(** ** More on sizes compared by their unit letters *)

Module UnitsMore.

Import API ClientSettingsUnits SizeProps CompositeProps ClientSettingsProps.

Lemma isDigit_char (c : ascii) : isDigit (String c "") = is_digit c.
Proof. destruct c as [[] [] [] [] [] [] [] []]; reflexivity. Qed.

Lemma length_snoc (s : string) (c : ascii) :
  String.length (s ++ String c "") = S (String.length s).
Proof. rewrite string_app_length. simpl. lia. Qed.

Lemma substring_last (s : string) (c : ascii) :
  substring (String.length s) 1 (s ++ String c "") = String c "".
Proof. induction s as [|x s IH]; [done|]. exact IH. Qed.

Lemma substring_init (s rest : string) :
  substring 0 (String.length s) (s ++ rest) = s.
Proof.
  induction s as [|x s IH]; simpl.
  - by destruct rest.
  - change (String x s ++ rest) with (String x (s ++ rest)). simpl. by rewrite IH.
Qed.

Lemma lastByte_snoc (s : string) (c : ascii) :
  lastByte (s ++ String c "") = Ok (String c "").
Proof. unfold lastByte. by rewrite length_snoc, substring_last. Qed.

Lemma dropLast_snoc (s : string) (c : ascii) : dropLast (s ++ String c "") = s.
Proof.
  unfold dropLast. rewrite length_snoc. simpl. rewrite Nat.sub_0_r.
  apply substring_init.
Qed.

Lemma string_snoc (s : string) :
  s <> "" -> exists init c, s = init ++ String c "".
Proof.
  induction s as [|x s IH]; [done|]. intros _.
  destruct s as [|y s].
  - by exists "", x.
  - destruct IH as (init & c & Heq); [done|].
    exists (String x init), c.
    change (String x init ++ String c "") with (String x (init ++ String c "")).
    by rewrite <- Heq.
Qed.

Lemma all_digits_snoc (init : string) (c : ascii) :
  all_digits (init ++ String c "") = all_digits init && is_digit c.
Proof.
  induction init as [|x init IH]; simpl.
  - by rewrite andb_true_r.
  - change (String x init ++ String c "") with (String x (init ++ String c "")).
    simpl. by rewrite IH, andb_assoc.
Qed.

Lemma string_app_empty (s : string) : s ++ "" = s.
Proof.
  induction s as [|x s IH]; [done|].
  change (String x s ++ "") with (String x (s ++ "")). by rewrite IH.
Qed.

Lemma lastByte_nonempty (s : string) : s <> "" -> exists c, lastByte s = Ok (String c "").
Proof.
  intros Hs. destruct (string_snoc s Hs) as (init & c & ->).
  exists c. apply lastByte_snoc.
Qed.

(** The last byte of a literal without unit is a digit. *)
Lemma lastByte_digits (ds : string) :
  all_digits ds = true -> (1 <= String.length ds)%nat ->
  exists c, lastByte ds = Ok (String c "") /\ is_digit c = true.
Proof.
  intros Hd Hl.
  destruct (string_snoc ds) as (init & c & ->); [by destruct ds; simpl in Hl; [lia|]|].
  rewrite all_digits_snoc in Hd. apply andb_true_iff in Hd as [_ Hc].
  exists c. split; [apply lastByte_snoc|done].
Qed.

Lemma unit_letter (u : string) :
  (u = "" \/ u = "k" \/ u = "m" \/ u = "g") -> u <> "" ->
  u = "k" \/ u = "m" \/ u = "g".
Proof. intros [->|H] Hne; [done|exact H]. Qed.

(** X17: on two literals of the grammar that both carry a unit letter, the
    [getMaxSize] that compares unit letters returns without panic: with the
    same unit it returns the literal with the larger number (the second on
    equal numbers), which has the larger byte count; with different units
    it returns the literal with the larger unit, whatever the numbers. *)
Theorem getMaxSize_with_unit_letters (s1 ds1 u1 s2 ds2 u2 : string) :
  literal s1 ds1 u1 -> literal s2 ds2 u2 -> u1 <> "" -> u2 <> "" ->
  getMaxSize s1 (Some s2)
  = Ok (if (u1 =? u2)%string
        then if digits_value 0 ds1 >? digits_value 0 ds2 then s1 else s2
        else if unit_bytes u1 <? unit_bytes u2 then s2 else s1)
  /\ (u1 = u2 ->
      exists r, getMaxSize s1 (Some s2) = Ok r
                /\ (r = s1 \/ r = s2)
                /\ ClientSettings.parseSizeToBytes r
                   = inl (Z.max (size_bytes ds1 u1) (size_bytes ds2 u2))).
Proof.
  intros H1 H2 Hu1 Hu2.
  assert (Hget : getMaxSize s1 (Some s2)
                 = Ok (if (u1 =? u2)%string
                       then if digits_value 0 ds1 >? digits_value 0 ds2 then s1 else s2
                       else if unit_bytes u1 <? unit_bytes u2 then s2 else s1)).
  { pose proof (literal_nonempty _ _ _ H1) as Hne1.
    destruct H1 as (E1 & Hd1 & Hl1 & Hunit1), H2 as (E2 & Hd2 & Hl2 & Hunit2).
    pose proof (ParseInt_digits "Atoi" _ Hd1 Hl1) as A1.
    pose proof (ParseInt_digits "Atoi" _ Hd2 Hl2) as A2.
    unfold getMaxSize. rewrite (string_eqb_false _ _ Hne1).
    destruct (unit_letter _ Hunit1 Hu1) as [->|[->| ->]],
             (unit_letter _ Hunit2 Hu2) as [->|[->| ->]];
      rewrite E1, E2, !lastByte_snoc, !bind_Ok; simpl;
      rewrite ?dropLast_snoc; unfold Atoi; rewrite ?A1, ?A2; simpl;
      try reflexivity;
      by destruct (digits_value 0 ds1 >? digits_value 0 ds2). }
  split; [exact Hget|]. intros <-. rewrite Hget, String.eqb_refl.
  pose proof (parseSizeToBytes_literal _ _ _ H1) as P1.
  pose proof (parseSizeToBytes_literal _ _ _ H2) as P2.
  assert (0 < unit_bytes u1).
  { destruct H1 as (_ & _ & _ & Hu). destruct (multiplier_unit _ Hu) as [_ ?]. lia. }
  unfold size_bytes in *.
  destruct (Z.gtb_spec (digits_value 0 ds1) (digits_value 0 ds2)); eexists;
    (split; [done|]).
  - split; [by left|]. rewrite P1. f_equal. nia.
  - split; [by right|]. rewrite P2. f_equal. nia.
Qed.

Lemma getMaxSize_with_unit_letters_witness :
  getMaxSize "1025k" (Some "1m")
  = Ok (if ("k" =? "m")%string
        then if digits_value 0 "1025" >? digits_value 0 "1" then "1025k" else "1m"
        else if unit_bytes "k" <? unit_bytes "m" then "1m" else "1025k").
Proof.
  apply (getMaxSize_with_unit_letters "1025k" "1025" "k" "1m" "1" "m");
    try discriminate; unfold literal; repeat split; simpl; auto; lia.
Defined.

(** X18: a literal without unit loses against a literal with a unit letter
    in both argument orders, whatever the two numbers. *)
Theorem getMaxSize_bytes_lose_against_units (s1 ds1 s2 ds2 u2 : string) :
  literal s1 ds1 "" -> literal s2 ds2 u2 -> u2 <> "" ->
  getMaxSize s1 (Some s2) = Ok s2 /\ getMaxSize s2 (Some s1) = Ok s2.
Proof.
  intros H1 H2 Hu2.
  pose proof (literal_nonempty _ _ _ H1) as Hne1.
  pose proof (literal_nonempty _ _ _ H2) as Hne2.
  destruct H1 as (E1 & Hd1 & [Hl1 _] & _), H2 as (E2 & Hd2 & _ & Hunit2).
  rewrite string_app_empty in E1. subst s1.
  destruct (lastByte_digits ds1 Hd1 Hl1) as (c & Hlast & Hc).
  unfold getMaxSize.
  rewrite (string_eqb_false _ _ Hne1), (string_eqb_false _ _ Hne2), Hlast.
  destruct (unit_letter _ Hunit2 Hu2) as [->|[->| ->]];
    rewrite E2, !lastByte_snoc, !bind_Ok, !isDigit_char, Hc; by split.
Qed.

Lemma getMaxSize_bytes_lose_against_units_witness :
  getMaxSize "9999" (Some "1k") = Ok "1k" /\ getMaxSize "1k" (Some "9999") = Ok "1k".
Proof.
  apply (getMaxSize_bytes_lose_against_units "9999" "9999" "1k" "1" "k");
    try discriminate; unfold literal; repeat split; simpl; auto; lia.
Defined.

(** X19: two literals without unit whose last digits differ are not
    compared at all: the first argument is returned. *)
Theorem getMaxSize_bytes_keep_the_first (s1 s2 : string) :
  literal s1 s1 "" -> literal s2 s2 "" -> lastByte s1 <> lastByte s2 ->
  getMaxSize s1 (Some s2) = Ok s1.
Proof.
  intros H1 H2 Hlast.
  pose proof (literal_nonempty _ _ _ H1) as Hne1.
  destruct H1 as (_ & Hd1 & [Hl1 _] & _), H2 as (_ & Hd2 & [Hl2 _] & _).
  destruct (lastByte_digits s1 Hd1 Hl1) as (c1 & L1 & Hc1).
  destruct (lastByte_digits s2 Hd2 Hl2) as (c2 & L2 & Hc2).
  unfold getMaxSize. rewrite (string_eqb_false _ _ Hne1), L1, L2, !bind_Ok.
  rewrite !isDigit_char, Hc1, Hc2. simpl.
  assert (Hne : (c1 =? c2)%char = false).
  { apply Ascii.eqb_neq. intros ->. apply Hlast. by rewrite L1, L2. }
  rewrite Hne.
  assert (Hk : (c1 =? "k")%char = false /\ (c1 =? "m")%char = false)
    by (destruct c1 as [[] [] [] [] [] [] [] []]; by try discriminate Hc1).
  destruct Hk as [-> ->]. by destruct (c1 =? "g")%char.
Qed.

Lemma getMaxSize_bytes_keep_the_first_witness :
  getMaxSize "19" (Some "25") = Ok "19".
Proof.
  apply getMaxSize_bytes_keep_the_first;
    [unfold literal; repeat split; simpl; auto; lia
    |unfold literal; repeat split; simpl; auto; lia
    |discriminate].
Defined.

(** X20: whatever this [getMaxSize] returns is one of its two sizes; it
    returns the first size for a nil second size and the second size for an
    empty first one; and it panics with a slice out of bounds when the
    first size is not empty and the second is the empty string. *)
Theorem getMaxSize_returns_an_argument_or_panics (s1 : Size) (s2 : option Size) :
  (forall r, getMaxSize s1 s2 = Ok r -> r = s1 \/ s2 = Some r)
  /\ getMaxSize s1 None = Ok s1
  /\ (forall s, getMaxSize "" (Some s) = Ok s)
  /\ (s1 <> "" -> getMaxSize s1 (Some "") = Panic (PanicSliceBounds (-1))).
Proof.
  split; [|split; [done|split; [done|]]].
  - intros r. unfold getMaxSize. destruct s2 as [s2|]; [|intros [= <-]; by left].
    destruct (s1 =? "")%string; [intros [= <-]; by right|].
    destruct (lastByte s1) as [u1|]; [|done]. rewrite bind_Ok.
    destruct (lastByte s2) as [u2|]; [|done]. rewrite bind_Ok.
    repeat match goal with
           | |- context [if ?b then _ else _] => destruct b
           | |- context [must ?a] => destruct a; simpl
           end; try done; intros [= <-]; auto.
  - intros Hs. unfold getMaxSize. rewrite (string_eqb_false _ _ Hs).
    destruct (lastByte_nonempty s1 Hs) as (c & ->). reflexivity.
Qed.

Lemma getMaxSize_returns_an_argument_or_panics_witness :
  getMaxSize "1k" (Some "") = Panic (PanicSliceBounds (-1)).
Proof.
  apply (proj2 (proj2 (proj2 (getMaxSize_returns_an_argument_or_panics "1k" None)))).
  discriminate.
Defined.

(** *** Paths without slashes *)

(** X21: [removeSlashFromPath] removes the slashes of each part of a path
    separately, changes nothing when applied a second time, never makes a
    path longer, and leaves a path as it is exactly when the path holds no
    slash. *)
Theorem removeSlashFromPath_properties (path1 path2 : string) :
  removeSlashFromPath (path1 ++ path2)
  = removeSlashFromPath path1 ++ removeSlashFromPath path2
  /\ removeSlashFromPath (removeSlashFromPath path1) = removeSlashFromPath path1
  /\ (String.length (removeSlashFromPath path1) <= String.length path1)%nat
  /\ (removeSlashFromPath path1 = path1 <-> occurs "/" path1 = false).
Proof.
  assert (Hlen : forall p, (String.length (removeSlashFromPath p) <= String.length p)%nat).
  { intros p. induction p as [|c p IH]; [done|]. cbn [removeSlashFromPath].
    destruct (c =? "/")%char; simpl; lia. }
  assert (Hfix : forall p, occurs "/" p = false -> removeSlashFromPath p = p).
  { intros p. induction p as [|c p IH]; [done|]. cbn [removeSlashFromPath occurs].
    rewrite Ascii.eqb_sym. destruct (c =? "/")%char; [done|]. simpl.
    intros H. by rewrite IH. }
  split; [|split; [|split; [apply Hlen|split]]].
  - induction path1 as [|c p IH]; [done|].
    change (String c p ++ path2) with (String c (p ++ path2)).
    cbn [removeSlashFromPath]. destruct (c =? "/")%char; [done|].
    change (String c (removeSlashFromPath p) ++ removeSlashFromPath path2)
      with (String c (removeSlashFromPath p ++ removeSlashFromPath path2)).
    by rewrite IH.
  - apply Hfix, removeSlashFromPath_no_slash.
  - intros H. rewrite <- H. apply removeSlashFromPath_no_slash.
  - apply Hfix.
Qed.

(** *** The generator and the filters *)

Lemma filter_flat_map_pair {A B : Type} (P : B -> bool) (f g : A -> B) (l : list A) :
  (forall a, P (f a) = true) -> (forall a, P (g a) = false) ->
  List.filter P (List.flat_map (fun a => [f a; g a]) l) = List.map f l.
Proof.
  intros Hf Hg. induction l as [|a l IH]; simpl; [done|].
  by rewrite Hf, Hg, IH.
Qed.

Lemma filter_flat_map_pair_snd {A B : Type} (P : B -> bool) (f g : A -> B) (l : list A) :
  (forall a, P (f a) = false) -> (forall a, P (g a) = true) ->
  List.filter P (List.flat_map (fun a => [f a; g a]) l) = List.map g l.
Proof.
  intros Hf Hg. induction l as [|a l IH]; simpl; [done|].
  by rewrite Hf, Hg, IH.
Qed.

Lemma filter_flat_map_pair_none {A B : Type} (P : B -> bool) (f g : A -> B) (l : list A) :
  (forall a, P (f a) = false) -> (forall a, P (g a) = false) ->
  List.filter P (List.flat_map (fun a => [f a; g a]) l) = [].
Proof.
  intros Hf Hg. induction l as [|a l IH]; simpl; [done|].
  by rewrite Hf, Hg, IH.
Qed.

(** X22: the match-rule entry point never panics and returns two files per
    attached client settings policy; the internal filter keeps the files
    with the suffix int, the external filter those with the suffix ext, in
    the order of the policies and with the same content pairwise, and the
    redirect filter keeps none. The files of the path-rule entry point pass
    the redirect filter only, and there is at most one. *)
Theorem generated_files_through_the_filters
    (tmpl : ClientSettingsPolicySpec -> string)
    (tmplExternalRedirect : Size -> string) :
  (forall rule,
      exists fs,
        GenerateForMatchRule tmpl rule = Ok fs
        /\ len fs = (2 * length (clientSettingsOf (Dataplane.Policies rule)))%nat
        /\ Policies.ForInternalLocation fs
           = mk_slice (List.map (fun csp => {| Policies.Name := internalFileName csp;
                                               Policies.Type_ := Policies.Internal;
                                               Policies.Content := tmpl (Spec csp) |})
                                (clientSettingsOf (Dataplane.Policies rule)))
        /\ Policies.ForExternalLocation fs
           = mk_slice (List.map (fun csp => {| Policies.Name := externalFileName csp;
                                               Policies.Type_ := Policies.External;
                                               Policies.Content := tmpl (Spec csp) |})
                                (clientSettingsOf (Dataplane.Policies rule)))
        /\ Policies.ForExternalRedirectLocation fs = mk_slice [])
  /\ (forall rule fs,
      GenerateForPathRule tmplExternalRedirect rule = Ok fs ->
      Policies.ForInternalLocation fs = mk_slice []
      /\ Policies.ForExternalLocation fs = mk_slice []
      /\ elems (Policies.ForExternalRedirectLocation fs) = elems fs
      /\ (len fs <= 1)%nat).
Proof.
  split.
  - intros rule. eexists. split.
    { unfold GenerateForMatchRule, make_slice. by rewrite matchLoop_names. }
    rewrite PoliciesProps.ForInternalLocation_filter,
      PoliciesProps.ForExternalLocation_filter,
      PoliciesProps.ForExternalRedirectLocation_filter. simpl.
    generalize (clientSettingsOf (Dataplane.Policies rule)). intros l.
    split; [|split; [|split]].
    + unfold len. simpl. induction l as [|csp l IH]; simpl; [done|]. rewrite IH. lia.
    + f_equal. by apply filter_flat_map_pair.
    + f_equal. by apply filter_flat_map_pair_snd.
    + f_equal. by apply filter_flat_map_pair_none.
  - intros rule fs. rewrite GenerateForPathRule_cases.
    destruct (maxBodySizeOf rule) as [s|]; [|done].
    destruct (s =? "")%string; intros [= <-];
      repeat split; try reflexivity; unfold len; simpl; lia.
Qed.

Lemma generated_files_through_the_filters_witness :
  Policies.ForInternalLocation
    (mk_slice [{| Policies.Name := redirectFileName "prefix" "/coffee/latte";
                  Policies.Type_ := Policies.ExternalRedirect;
                  Policies.Content := Fixtures.tmplExternalRedirect "2m" |}])
  = mk_slice [].
Proof.
  apply (proj2 (generated_files_through_the_filters
                  Fixtures.tmpl Fixtures.tmplExternalRedirect) Fixtures.pathRule).
  reflexivity.
Defined.

End UnitsMore.

(** ** The supported features *)

Module ConformanceProps.

Import Conformance.

Lemma Split_nonempty (s : string) : Split s <> [].
Proof.
  induction s as [|c s IH]; simpl; [done|].
  destruct (c =? ",")%char; [done|]. by destruct (Split s).
Qed.

Lemma Split_no_comma (s : string) : Forall (fun value => occurs "," value = false) (Split s).
Proof.
  induction s as [|c s IH]; cbn [Split]; [by repeat constructor|].
  destruct (Ascii.eqb_spec c ",") as [->|Hc]; [by constructor|].
  pose proof (Split_nonempty s) as Hne.
  destruct (Split s) as [|value values]; [done|].
  apply List.Forall_cons_iff in IH as [Hv Hvs]. constructor; [|done].
  cbn [occurs]. rewrite Hv, orb_false_r. apply Ascii.eqb_neq. congruence.
Qed.

Lemma Split_comma_free (value : string) :
  occurs "," value = false -> Split value = [value].
Proof.
  induction value as [|c value IH]; cbn [Split occurs]; [done|].
  intros H. apply orb_false_elim in H as [Hc Hrest].
  rewrite Ascii.eqb_sym in Hc. rewrite Hc. by rewrite (IH Hrest).
Qed.

Lemma Split_app_comma (value rest : string) :
  occurs "," value = false ->
  Split (value ++ String "," rest) = value :: Split rest.
Proof.
  induction value as [|c value IH]; cbn [occurs]; intros H.
  - done.
  - change (String c value ++ String "," rest)
      with (String c (value ++ String "," rest)).
    apply orb_false_elim in H as [Hc Hrest].
    rewrite Ascii.eqb_sym in Hc. cbn [Split]. rewrite Hc. by rewrite (IH Hrest).
Qed.

Lemma Split_Join (values : list string) :
  values <> [] -> Forall (fun value => occurs "," value = false) values ->
  Split (Join values) = values.
Proof.
  intros Hne Hall. induction Hall as [|value rest Hv Hrest IH]; [done|].
  destruct rest as [|value' rest].
  - by apply Split_comma_free.
  - change (Join (value :: value' :: rest))
      with (value ++ String "," (Join (value' :: rest))).
    rewrite (Split_app_comma _ _ Hv). f_equal. by apply IH.
Qed.

Lemma Join_Split (s : string) : Join (Split s) = s.
Proof.
  induction s as [|c s IH]; cbn [Split]; [done|].
  destruct (Ascii.eqb_spec c ",") as [->|Hc].
  - pose proof (Split_nonempty s). destruct (Split s) as [|v vs]; [done|].
    change (Join ("" :: v :: vs)) with (String "," (Join (v :: vs))). by rewrite IH.
  - pose proof (Split_nonempty s). destruct (Split s) as [|v vs]; [done|].
    rewrite <- IH. by destruct vs.
Qed.

Lemma insert_all (values : list string) (acc : gset string) (value : string) :
  value ∈ foldl (fun res value => {[ value ]} ∪ res) acc values
  <-> In value values \/ value ∈ acc.
Proof.
  revert acc. induction values as [|v values IH]; intros acc; simpl.
  - tauto.
  - rewrite IH, elem_of_union, elem_of_singleton. intuition congruence.
Qed.

(** X23: [parseSupportedFeatures] returns the nil set for the empty string;
    for any other string it returns a set that holds exactly the substrings
    between the commas, none of which holds a comma, and that is never
    empty. Writing the substrings with commas between them gives the string
    back, and a non-empty list of strings without comma, written with
    commas between them, is parsed into the set of the strings of the
    list. *)
Theorem parseSupportedFeatures_parses_comma_lists (f : string) :
  (parseSupportedFeatures f = None <-> f = "")
  /\ (f <> "" ->
      exists features,
        parseSupportedFeatures f = Some features
        /\ features <> ∅
        /\ (forall value, value ∈ features <-> In value (Split f))
        /\ (forall value, value ∈ features -> occurs "," value = false))
  /\ Join (Split f) = f
  /\ (forall values,
        values <> [] -> Forall (fun value => occurs "," value = false) values ->
        Join values <> "" ->
        parseSupportedFeatures (Join values) = Some (list_to_set values)).
Proof.
  split; [|split; [|split; [apply Join_Split|]]].
  - unfold parseSupportedFeatures. destruct (String.eqb_spec f ""); split; try done.
  - intros Hf. unfold parseSupportedFeatures.
    destruct (String.eqb_spec f "") as [|_]; [done|].
    eexists. split; [done|].
    assert (Hin : forall value,
               value ∈ foldl (fun res value => {[ value ]} ∪ res) (∅ : gset string) (Split f)
               <-> In value (Split f)).
    { intros value. rewrite insert_all, elem_of_empty. tauto. }
    split; [|split; [exact Hin|]].
    + pose proof (Split_nonempty f) as Hne.
      destruct (Split f) as [|v vs] eqn:Hs; [done|]. intros Hempty.
      assert (Hv : v ∈ foldl (fun res value => {[ value ]} ∪ res) (∅ : gset string) (v :: vs))
        by (apply Hin; by left).
      rewrite Hempty in Hv. by apply not_elem_of_empty in Hv.
    + intros value Hv. apply Hin in Hv.
      pose proof (Split_no_comma f) as Hall. rewrite List.Forall_forall in Hall.
      by apply Hall.
  - intros values Hne Hall Hjoin. unfold parseSupportedFeatures.
    destruct (String.eqb_spec (Join values) "") as [|_]; [done|].
    rewrite (Split_Join _ Hne Hall). f_equal.
    apply set_eq. intros value.
    rewrite insert_all, elem_of_list_to_set, list_elem_of_In, elem_of_empty. tauto.
Qed.

Lemma parseSupportedFeatures_parses_comma_lists_witness :
  parseSupportedFeatures (Join ["Gateway"; "HTTPRoute"])
  = Some (list_to_set ["Gateway"; "HTTPRoute"]).
Proof.
  apply (proj2 (proj2 (proj2 (parseSupportedFeatures_parses_comma_lists "")))).
  - discriminate.
  - by repeat constructor.
  - discriminate.
Defined.

Example Split_examples :
  Split "" = [""] /\ Split "a,b" = ["a"; "b"] /\ Split "a," = ["a"; ""]
  /\ Split ",a" = [""; "a"] /\ Split "HTTPRoute" = ["HTTPRoute"].
Proof. repeat split. Qed.

End ConformanceProps.

(** ** The redirect file when the merge panics *)

Module RedirectProps.

Import API ClientSettingsUnits SizeProps CompositeProps ClientSettingsProps UnitsMore.

(** Once the merge has panicked, the rest of the loop is not run. *)
Lemma merge_panic (p : panic_value) (pols : list Policy) :
  foldl mergeStep (Panic p) pols = Panic p.
Proof. induction pols as [|pol pols IH]; cbn [foldl]; [done|]. exact IH. Qed.

Lemma mergeStep_size (acc s : API.Size) (pol : Policy) :
  bodyMaxSize pol = Some s -> mergeStep (Ok acc) pol = getMaxSize acc (Some s).
Proof.
  unfold mergeStep, bodyMaxSize. rewrite bind_Ok.
  destruct (asClientSettingsPolicy pol) as [csp|]; [|done].
  destruct (Body (Spec csp)) as [body|]; [|done].
  by intros ->.
Qed.

(** Two literals without unit that end in the same digit are compared by
    the numbers before the last digit; when one of them is that digit alone,
    the number before it is the empty string and [Atoi] fails. *)
Lemma getMaxSize_same_last_digit_panics (d : ascii) (init : string) :
  is_digit d = true -> all_digits init = true -> (String.length init <= 3)%nat ->
  getMaxSize (String d "") (Some (init ++ String d ""))
  = Panic (PanicError (ErrSyntax "Atoi" ""))
  /\ getMaxSize (init ++ String d "") (Some (String d ""))
     = Panic (PanicError (ErrSyntax "Atoi" "")).
Proof.
  intros Hd Hinit Hlen.
  assert (Hl : lastByte (String d "") = Ok (String d "")) by apply (lastByte_snoc "" d).
  assert (Hdrop : dropLast (String d "") = "") by apply (dropLast_snoc "" d).
  split; unfold getMaxSize.
  - rewrite (string_eqb_false (String d "") ""); [|discriminate].
    rewrite Hl, lastByte_snoc, !bind_Ok, isDigit_char, Hd. cbn [andb negb].
    by rewrite String.eqb_refl, Hdrop.
  - rewrite (string_eqb_false (init ++ String d "") ""); [|by destruct init].
    rewrite Hl, lastByte_snoc, !bind_Ok, isDigit_char, Hd. cbn [andb negb].
    rewrite String.eqb_refl, Hdrop, dropLast_snoc.
    destruct init as [|c r]; [done|].
    unfold Atoi. rewrite (ParseInt_digits "Atoi" _ Hinit); [done|].
    simpl in *. lia.
Qed.

Lemma one_digit_literals (d : ascii) (init : string) :
  is_digit d = true -> all_digits init = true -> (String.length init <= 3)%nat ->
  literal (String d "") (String d "") ""
  /\ literal (init ++ String d "") (init ++ String d "") "".
Proof.
  intros Hd Hinit Hlen. split; unfold literal.
  - split; [done|]. split; [simpl; by rewrite Hd|]. split; [simpl; lia|by left].
  - rewrite string_app_empty, all_digits_snoc, Hinit, Hd, length_snoc.
    split; [done|]. split; [done|]. split; [lia|by left].
Qed.

(** The merge over a list in which two policies contribute such sizes, with
    no other contribution before the second. *)
Lemma merge_same_last_digit_panics (d : ascii) (init : string) (s1 s2 : API.Size)
    (pre mid post : list Policy) (pol1 pol2 : Policy) :
  is_digit d = true -> all_digits init = true -> (String.length init <= 3)%nat ->
  (s1 = String d "" /\ s2 = init ++ String d "")
  \/ (s1 = init ++ String d "" /\ s2 = String d "") ->
  noBodyMaxSize pre -> bodyMaxSize pol1 = Some s1 ->
  Forall (fun pol => bodyMaxSize pol = None) mid ->
  bodyMaxSize pol2 = Some s2 ->
  foldl mergeStep (Ok "") (pre ++ pol1 :: mid ++ pol2 :: post)%list
  = Panic (PanicError (ErrSyntax "Atoi" "")).
Proof.
  intros Hd Hinit Hlen Hs Hpre H1 Hmid H2.
  rewrite foldl_app, (merge_no_size _ Hpre). cbn [foldl].
  rewrite (mergeStep_first _ _ H1), foldl_app, (merge_skip _ _ Hmid). cbn [foldl].
  rewrite (mergeStep_size _ _ _ H2).
  destruct (getMaxSize_same_last_digit_panics d init Hd Hinit Hlen) as [P1 P2].
  unfold API.Size in *.
  destruct Hs as [[-> ->]|[-> ->]]; [rewrite P1|rewrite P2]; apply merge_panic.
Qed.

(** C7: the path-rule entry point does not return one redirect file
    whenever the attached policies contribute a non-empty maximum. When two
    attached policies contribute sizes without unit that end in the same
    digit, one of them that digit alone (the size 5 twice, or 5 and 15),
    both are literals of the grammar, no other policy contributes before
    the second, and yet the merge panics on [Atoi] of the empty string: the
    entry point returns no list of files at all. The location entry point
    over policy lists panics in the same way on a location that is not
    external. *)
Theorem redirect_file_lost_to_merge_panic
    (tmpl : ClientSettingsPolicySpec -> string)
    (tmplExternalRedirect : Size -> string)
    (ExternalLocationType : HTTP.LocationType)
    (d : ascii) (init : string) (s1 s2 : API.Size)
    (pre mid post : list Policy) (pol1 pol2 : Policy) :
  is_digit d = true -> all_digits init = true -> (String.length init <= 3)%nat ->
  (s1 = String d "" /\ s2 = init ++ String d "")
  \/ (s1 = init ++ String d "" /\ s2 = String d "") ->
  noBodyMaxSize pre -> bodyMaxSize pol1 = Some s1 ->
  Forall (fun pol => bodyMaxSize pol = None) mid ->
  bodyMaxSize pol2 = Some s2 ->
  (literal s1 s1 "" /\ literal s2 s2 "" /\ s1 <> "" /\ s2 <> "")
  /\ (forall rule,
        attachedPolicies rule = (pre ++ pol1 :: mid ++ pol2 :: post)%list ->
        GenerateForPathRule tmplExternalRedirect rule
        = Panic (PanicError (ErrSyntax "Atoi" ""))
        /\ forall fs, GenerateForPathRule tmplExternalRedirect rule <> Ok fs)
  /\ (forall location,
        HTTP.Type_ location <> ExternalLocationType ->
        GenerateForLocation tmpl tmplExternalRedirect ExternalLocationType
          (pre ++ pol1 :: mid ++ pol2 :: post)%list location
        = Panic (PanicError (ErrSyntax "Atoi" ""))).
Proof.
  intros Hd Hinit Hlen Hs Hpre H1 Hmid H2.
  pose proof (merge_same_last_digit_panics d init s1 s2 pre mid post pol1 pol2
                Hd Hinit Hlen Hs Hpre H1 Hmid H2) as Hmerge.
  destruct (one_digit_literals d init Hd Hinit Hlen) as [L1 L2].
  split; [|split].
  - destruct Hs as [[-> ->]|[-> ->]].
    + split; [exact L1|]. split; [exact L2|]. split; [discriminate|by destruct init].
    + split; [exact L2|]. split; [exact L1|]. split; [by destruct init|discriminate].
  - intros rule Hrule.
    assert (Hgen : GenerateForPathRule tmplExternalRedirect rule
                   = Panic (PanicError (ErrSyntax "Atoi" ""))).
    { by rewrite GenerateForPathRule_cases, maxBodySizeOf_flat, Hrule, Hmerge. }
    split; [exact Hgen|]. intros fs. by rewrite Hgen.
  - intros location Hloc. unfold GenerateForLocation.
    rewrite (string_eqb_false _ _ Hloc). unfold maxBodySizeOfPolicies.
    by rewrite Hmerge.
Qed.

Lemma redirect_file_lost_to_merge_panic_witness :
  (literal "5" "5" "" /\ literal "5" "5" "" /\ "5" <> "" /\ "5" <> "")
  /\ GenerateForPathRule Fixtures.tmplExternalRedirect Fixtures.sameDigitPathRule
     = Panic (PanicError (ErrSyntax "Atoi" ""))
  /\ GenerateForLocation Fixtures.tmpl Fixtures.tmplExternalRedirect "external"
       Fixtures.sameDigitPolicies
       {| HTTP.Type_ := "internal"; HTTP.HTTPMatchKey := "1_0" |}
     = Panic (PanicError (ErrSyntax "Atoi" "")).
Proof.
  destruct (redirect_file_lost_to_merge_panic
              Fixtures.tmpl Fixtures.tmplExternalRedirect "external"
              "5" "" "5" "5" [] [] []
              (Fixtures.policyWithMaxSize "csp1" (Some "5"))
              (Fixtures.policyWithMaxSize "csp2" (Some "5")))
    as (Hlit & Hrule & Hloc).
  - reflexivity.
  - reflexivity.
  - simpl. lia.
  - left. split; reflexivity.
  - constructor.
  - reflexivity.
  - constructor.
  - reflexivity.
  - split; [exact Hlit|]. split.
    + apply (Hrule Fixtures.sameDigitPathRule). reflexivity.
    + apply Hloc. discriminate.
Defined.

(** The sizes need not be equal: 5 and 15 end in the same digit. *)
Example merge_panics_on_5_and_15 :
  GenerateForPathRule Fixtures.tmplExternalRedirect
    {| Dataplane.Path := "/";
       Dataplane.PathType_ := "prefix";
       Dataplane.MatchRules :=
         [{| Dataplane.Policies := [Fixtures.policyWithMaxSize "csp1" (Some "15")] |};
          {| Dataplane.Policies := [Fixtures.otherPolicy;
                                    Fixtures.policyWithMaxSize "csp2" (Some "5")] |}] |}
  = Panic (PanicError (ErrSyntax "Atoi" ""))
  /\ GenerateForPathRule Fixtures.tmplExternalRedirect
       {| Dataplane.Path := "/";
          Dataplane.PathType_ := "prefix";
          Dataplane.MatchRules :=
            [{| Dataplane.Policies := [Fixtures.policyWithMaxSize "csp1" (Some "15");
                                       Fixtures.policyWithMaxSize "csp2" (Some "25")] |}] |}
     = Ok (mk_slice
             [{| Policies.Name := "ClientSettingsPolicy_prefix__redirect.conf";
                 Policies.Type_ := Policies.ExternalRedirect;
                 Policies.Content := Fixtures.tmplExternalRedirect "25" |}]).
Proof. split; reflexivity. Qed.

End RedirectProps.
